(** * Thread sharing (internal_packages/thread-sharing/lib/main.tsx)

    A shallow embedding of the thread-sharing plugin: the resolver that maps
    an inbound link back to a local thread, the publish pipeline
    ([syncThreadToWeb], [unsyncThread]) and the debounced scheduler
    ([syncThreadToWebSoon]).

    Collaborators that live outside the plugin (the database, the attachment
    store, the HTTP API, the task queue, the clock) appear as an explicit
    environment record and as a trace of effects. *)

From Stdlib Require Import ZArith Lia Ascii String List.
From stdpp Require Import gmap strings list fin_maps pretty.
Import ListNotations.

Local Open Scope string_scope.
Local Open Scope list_scope.
Local Open Scope Z_scope.

Set Warnings "-register-all".

(** ** JavaScript values used by the plugin *)

(** A JavaScript number as the resolver sees it: the epoch seconds of a link
    are integers; [NaN] arises from [parseInt] on a non-numeric string or
    from arithmetic on [undefined], and an infinity from [parseInt] on a run
    of digits too long for a double. *)
Inductive JsNum : Type :=
  | NaN
  | Num (z : Z)
  | Infinity (negative : bool).

(** [x ? a : b] on an optional number: [undefined], [NaN] and [0] are falsy. *)
Definition truthyNum (x : option JsNum) : bool :=
  match x with
  | Some (Num z) => negb (z =? 0)
  | Some (Infinity _) => true
  | _ => false
  end.

(** [x + k] and [x - k] where [x] may be [undefined] ([undefined + k] is
    [NaN]). *)
Definition jsPlus (x : option JsNum) (k : Z) : JsNum :=
  match x with
  | Some (Num z) => Num (z + k)
  | Some (Infinity negative) => Infinity negative
  | _ => NaN
  end.

Definition jsMinus (x : option JsNum) (k : Z) : JsNum :=
  match x with
  | Some (Num z) => Num (z - k)
  | Some (Infinity negative) => Infinity negative
  | _ => NaN
  end.

(** The number [parseInt] returns for an integer: the nearest double, ties to
    the even one, and an infinity from [2^1024] on. Up to [2^53] in absolute
    value that is the integer itself. *)
Definition twoTo53 : Z := 9007199254740992.

Definition roundMagnitude (n : Z) : Z :=
  if n <? twoTo53 then n
  else
    let e := Z.log2 n - 52 in
    let q := n / 2 ^ e in
    let r := n mod 2 ^ e in
    let half := 2 ^ (e - 1) in
    let q' := if (half <? r) || ((r =? half) && Z.odd q) then q + 1 else q in
    q' * 2 ^ e.

Definition toDouble (z : Z) : JsNum :=
  let m := roundMagnitude (Z.abs z) in
  if 2 ^ 1024 <=? m then Infinity (z <? 0) else Num (Z.sgn z * m).

(** Truthiness of an optional string: [undefined] and the empty string are
    falsy. *)
Definition truthyStr (x : option string) : bool :=
  match x with
  | Some s => negb (String.eqb s "")
  | None => false
  end.

(** [parseInt(s, 10)]: leading white space, an optional sign, then the longest
    run of decimal digits; [NaN] when there is no digit.

    A string is the sequence of the bytes of its UTF-8 form. The white space
    [parseInt] skips is U+0009 to U+000D, U+0020, U+00A0, U+1680, U+2000 to
    U+200A, U+2028, U+2029, U+202F, U+205F, U+3000 and U+FEFF. [isSpace]
    tells the ones of a single byte (with the byte 160, which is U+00A0 where
    a string is read one byte a character), [skipSpace] also skips the
    others. *)
Definition isDigit (c : ascii) : bool :=
  (48 <=? Z.of_nat (nat_of_ascii c)) && (Z.of_nat (nat_of_ascii c) <=? 57).

Definition isSpace (c : ascii) : bool :=
  let n := nat_of_ascii c in
  (n =? 32)%nat || ((9 <=? n)%nat && (n <=? 13)%nat) || (n =? 160)%nat.

(** The third byte of U+2000 to U+200A, U+2028, U+2029 and U+202F after the
    bytes 226 and 128. *)
Definition isGeneralSpaceTail (c : ascii) : bool :=
  let n := nat_of_ascii c in
  ((128 <=? n)%nat && (n <=? 138)%nat)
  || (n =? 168)%nat || (n =? 169)%nat || (n =? 175)%nat.

Fixpoint skipSpace (s : string) : string :=
  match s with
  | String c s1 =>
      if isSpace c then skipSpace s1
      else
        match nat_of_ascii c, s1 with
        | 194%nat, String c2 s2 =>
            if (nat_of_ascii c2 =? 160)%nat then skipSpace s2 else s
        | 225%nat, String c2 (String c3 s3) =>
            if (nat_of_ascii c2 =? 154)%nat && (nat_of_ascii c3 =? 128)%nat
            then skipSpace s3 else s
        | 226%nat, String c2 (String c3 s3) =>
            if ((nat_of_ascii c2 =? 128)%nat && isGeneralSpaceTail c3)
               || ((nat_of_ascii c2 =? 129)%nat && (nat_of_ascii c3 =? 159)%nat)
            then skipSpace s3 else s
        | 227%nat, String c2 (String c3 s3) =>
            if (nat_of_ascii c2 =? 128)%nat && (nat_of_ascii c3 =? 128)%nat
            then skipSpace s3 else s
        | 239%nat, String c2 (String c3 s3) =>
            if (nat_of_ascii c2 =? 187)%nat && (nat_of_ascii c3 =? 191)%nat
            then skipSpace s3 else s
        | _, _ => s
        end
  | EmptyString => s
  end.

Fixpoint parseDigits (s : string) (acc : option Z) : option Z :=
  match s with
  | String c s' =>
      if isDigit c
      then parseDigits s' (Some (10 * default 0 acc + (Z.of_nat (nat_of_ascii c) - 48)))
      else acc
  | EmptyString => acc
  end.

Definition parseInt (s : string) : JsNum :=
  let body (neg : bool) (s : string) :=
    match parseDigits s None with
    | Some z => toDouble (if neg then - z else z)
    | None => NaN
    end in
  match skipSpace s with
  | String "-" s' => body true s'
  | String "+" s' => body false s'
  | s' => body false s'
  end.

(** ** Data model *)

(** An attachment ([File]): its id and [displayName()]. *)
Record File : Type := {
  file_id : string;
  displayName : string;
}.

(** A message: [version] is the number joined into the fingerprint,
    [isHidden] is the result of [m.isHidden()]. *)
Record Message : Type := {
  message_id : string;
  version : Z;
  body : string;
  isHidden : bool;
  files : list File;
}.

(** The plugin's metadata value, a JSON object whose fields may be absent. *)
Record Metadata : Type := {
  shared : option bool;
  key : option string;
  combinedVersionHash : option string;
  fileURLs : option (gmap string string);
}.

Definition emptyMetadata : Metadata :=
  {| shared := None; key := None; combinedVersionHash := None; fileURLs := None |}.

(** A thread with the attributes the plugin reads. [pluginMetadata] is the
    stored value for this plugin's id. *)
Record Thread : Type := {
  thread_id : string;
  subject : string;
  firstMessageTimestamp : Z;
  lastMessageSentTimestamp : Z;
  lastMessageReceivedTimestamp : Z;
  pluginMetadata : option Metadata;
}.

(** Modelled from the spec: [Thread.metadataForPluginId], declared outside
    the plugin. The plugin "only reads it and requests metadata writes through
    the external task queue": the call hands out the stored value, and an
    assignment to the object it returns does not reach the thread. *)
Definition metadataForPluginId (thread : Thread) : option Metadata :=
  pluginMetadata thread.

Definition isShared (thread : Thread) : bool :=
  let metadata := default emptyMetadata (metadataForPluginId thread) in
  default false (shared metadata).

(** ** The resolver *)

Definition DATE_EPSILON : Z := 60.

Record MailspringLinkParams : Type := {
  link_subject : string;
  lastDate : option JsNum;
  date : option JsNum;
}.

(** The query string after [url.parse] and [querystring.parse]. *)
Record QueryParams : Type := {
  q_subject : string;
  q_date : option string;
  q_lastDate : option string;
}.

Definition _parseOpenThreadUrl (params : QueryParams) : MailspringLinkParams :=
  {| link_subject := q_subject params;
     date := if truthyStr (q_date params)
             then parseInt <$> q_date params else None;
     lastDate := if truthyStr (q_lastDate params)
                 then parseInt <$> q_lastDate params else None |}.

Inductive TimeAttr : Type :=
  | FirstMessageTimestamp
  | LastMessageSentTimestamp
  | LastMessageReceivedTimestamp.

Definition timeAttr (a : TimeAttr) (t : Thread) : Z :=
  match a with
  | FirstMessageTimestamp => firstMessageTimestamp t
  | LastMessageSentTimestamp => lastMessageSentTimestamp t
  | LastMessageReceivedTimestamp => lastMessageReceivedTimestamp t
  end.

(** Modelled from the spec: [Matcher] and the attribute comparators, declared
    outside the plugin. [lessThan] and [greaterThan] are the strict
    comparisons; a comparison with [NaN] holds for no thread, and every
    time lies between the two infinities. *)
Inductive Matcher : Type :=
  | SubjectEqual (s : string)
  | LessThan (a : TimeAttr) (v : JsNum)
  | GreaterThan (a : TimeAttr) (v : JsNum)
  | And (ms : list Matcher)
  | Or (ms : list Matcher).

Fixpoint evaluate (m : Matcher) (t : Thread) : bool :=
  match m with
  | SubjectEqual s => String.eqb (subject t) s
  | LessThan a v =>
      match v with
      | Num z => timeAttr a t <? z
      | Infinity negative => negb negative
      | NaN => false
      end
  | GreaterThan a v =>
      match v with
      | Num z => z <? timeAttr a t
      | Infinity negative => negative
      | NaN => false
      end
  | And ms => forallb (fun m' => evaluate m' t) ms
  | Or ms => existsb (fun m' => evaluate m' t) ms
  end.

(** Modelled from the spec: [DatabaseStore.findBy(Thread).where(clauses)]
    yields the first stored thread that satisfies every clause, or null. *)
Definition findBy (store : list Thread) (clauses : list Matcher) : option Thread :=
  List.find (evaluate (And clauses)) store.

Definition dateClauseOf (params : MailspringLinkParams) (dateEpsilon : Z) : Matcher :=
  if truthyNum (date params)
  then And [ LessThan FirstMessageTimestamp (jsPlus (date params) dateEpsilon);
             GreaterThan FirstMessageTimestamp (jsMinus (date params) dateEpsilon) ]
  else Or [ And [ LessThan LastMessageSentTimestamp (jsPlus (lastDate params) dateEpsilon);
                  GreaterThan LastMessageSentTimestamp (jsMinus (lastDate params) dateEpsilon) ];
            And [ LessThan LastMessageReceivedTimestamp (jsPlus (lastDate params) dateEpsilon);
                  GreaterThan LastMessageReceivedTimestamp (jsMinus (lastDate params) dateEpsilon) ] ].

Definition _findCorrespondingThread
    (store : list Thread) (params : MailspringLinkParams) (dateEpsilon : Z) : option Thread :=
  let dateClause := dateClauseOf params dateEpsilon in
  findBy store [ SubjectEqual (link_subject params); dateClause ].

(** What [_onOpenThreadFromWeb] does with the result. *)
Inductive OpenOutcome : Type :=
  | PopoutThread (t : Thread)
  | ThreadNotFound (subject : string).

Definition _onOpenThreadFromWeb (store : list Thread) (q : QueryParams) : OpenOutcome :=
  let params := _parseOpenThreadUrl q in
  match _findCorrespondingThread store params DATE_EPSILON with
  | Some thread => PopoutThread thread
  | None => ThreadNotFound (link_subject params)
  end.

(** ** Collaborators of the publish pipeline *)

Record Identity : Type := {
  firstName : string;
  lastName : string;
  emailAddress : string;
}.

(** The JSON posted for a shared thread. *)
Record Document : Type := {
  doc_thread : Thread;
  sharedBy : Identity;
  doc_fileURLs : gmap string string;
  doc_messages : list Message;
}.

(** What [postStaticAsset] is given as [blob]: the bytes of an attachment,
    the document of a thread, or [{ shared: false }]. *)
Inductive Blob : Type :=
  | OctetStream (data : list Byte.byte)
  | ThreadJSON (doc : Document)
  | UnsharedJSON.

Record Task : Type := {
  model : Thread;
  value : Metadata;
}.

Inductive Error : Type :=
  | FileNotOnDisk (filePath : string)
  | ReadRejected (filePath : string)
  | RequestRejected (filename : option string).

(** The calls that leave the plugin, in the order they are made. A
    [PostStaticAsset] records the request and whether it resolved to a link. *)
Inductive Effect : Type :=
  | PostStaticAsset (filename : option string) (blob : Blob) (link : option string)
  | QueueTask (task : Task)
  | ConsoleLog (name : string) (err : Error).

(** The world one call runs against. [readFile] and [postStaticAsset] are
    [None] where the promise rejects. *)
Record Env : Type := {
  findAllMessages : string -> list Message;
  pathForFile : File -> string;
  readFile : string -> option (list Byte.byte);
  postStaticAsset : option string -> Blob -> option string;
  now : Z;
  identity : Identity;
  removeQuotedHTML : string -> string;
}.

(** ** Asynchronous code as a trace and a completion *)

Inductive Completion (A : Type) : Type :=
  | Resolved (a : A)
  | Rejected (err : Error).
Arguments Resolved {A} a.
Arguments Rejected {A} err.

Definition Async (A : Type) : Type := (list Effect * Completion A)%type.

Definition resolve {A : Type} (a : A) : Async A := ([], Resolved a).
Definition reject {A : Type} (err : Error) : Async A := ([], Rejected err).
Definition emit (e : Effect) : Async unit := ([e], Resolved tt).

Definition await {A B : Type} (m : Async A) (k : A -> Async B) : Async B :=
  match m with
  | (t, Resolved a) => let '(t', r) := k a in (t ++ t', r)
  | (t, Rejected err) => (t, Rejected err)
  end.

Definition tryCatch {A : Type} (m : Async A) (handler : Error -> Async A) : Async A :=
  match m with
  | (t, Resolved a) => (t, Resolved a)
  | (t, Rejected err) => let '(t', r) := handler err in (t ++ t', r)
  end.

Notation "x <- m ;; k" := (await m (fun x => k))
  (at level 100, m at next level, right associativity).

Definition readFileAsync (env : Env) (filePath : string) : Async (list Byte.byte) :=
  match readFile env filePath with
  | Some data => resolve data
  | None => reject (ReadRejected filePath)
  end.

Definition postAsync (env : Env) (filename : option string) (blob : Blob) : Async string :=
  match postStaticAsset env filename blob with
  | Some link => ([PostStaticAsset filename blob (Some link)], Resolved link)
  | None => ([PostStaticAsset filename blob None], Rejected (RequestRejected filename))
  end.

Definition queueTask (task : Task) : Async unit := emit (QueueTask task).

(** ** The publish pipeline *)

(** [messages.map(m => m.version).join('|')] *)
Definition combinedVersionHashOf (messages : list Message) : string :=
  String.concat "|" (map (fun m => pretty (version m)) messages).

(** The body of the [try] block for one attachment. *)
Definition uploadFile (env : Env) (file : File) : Async string :=
  let filePath := pathForFile env file in
  data <- readFileAsync env filePath ;;
  if (length data =? 0)%nat
  then reject (FileNotOnDisk filePath)
  else postAsync env (Some (file_id file +:+ "/" +:+ displayName file)) (OctetStream data).

(** One turn of the [while (toUpload.length)] loop: the [try] block, and the
    [catch] block that logs and goes on. *)
Definition uploadStep (env : Env) (file : File) (urls : gmap string string)
    : Async (gmap string string) :=
  tryCatch
    (link <- uploadFile env file ;; resolve (<[file_id file := link]> urls))
    (fun err => _ <- emit (ConsoleLog (displayName file) err) ;; resolve urls).

(** The loop itself. [stack] lists the files in the order [toUpload.pop()]
    hands them out, the last element of the array first. *)
Fixpoint uploadLoop (env : Env) (stack : list File) (urls : gmap string string)
    : Async (gmap string string) :=
  match stack with
  | [] => resolve urls
  | file :: rest =>
      urls' <- uploadStep env file urls ;;
      uploadLoop env rest urls'
  end.

Definition visibleMessages (env : Env) (thread : Thread) : list Message :=
  List.filter (fun m => negb (isHidden m)) (findAllMessages env (thread_id thread)).

(** [metadata.key || `${thread.id}-${Date.now()}`] *)
Definition keyFor (env : Env) (thread : Thread) (metadata : Metadata) : string :=
  if truthyStr (key metadata)
  then default "" (key metadata)
  else thread_id thread +:+ "-" +:+ pretty (now env).

(** [files.filter(f => !metadata.fileURLs[f.id])] *)
Definition toUploadOf (urls : gmap string string) (messages : list Message) : list File :=
  List.filter (fun f => negb (truthyStr (urls !! file_id f))) (flat_map files messages).

Definition documentOf (env : Env) (thread : Thread) (urls : gmap string string)
    (messages : list Message) : Document :=
  {| doc_thread := thread;
     sharedBy := identity env;
     doc_fileURLs := urls;
     doc_messages :=
       map (fun m => {| message_id := message_id m; version := version m;
                        body := removeQuotedHTML env (body m);
                        isHidden := isHidden m; files := files m |}) messages |}.

Definition syncThreadToWeb (env : Env) (thread : Thread) : Async unit :=
  let metadata := default emptyMetadata (metadataForPluginId thread) in
  let messages := visibleMessages env thread in
  let hash := combinedVersionHashOf messages in
  if decide (combinedVersionHash metadata = Some hash)
  then resolve tt
  else
    let key' := keyFor env thread metadata in
    let urls0 := default ∅ (fileURLs metadata) in
    let toUpload := toUploadOf urls0 messages in
    urls <- uploadLoop env (rev toUpload) urls0 ;;
    _ <- postAsync env (Some key') (ThreadJSON (documentOf env thread urls messages)) ;;
    queueTask {| model := thread;
                 value := {| shared := Some true;
                             key := Some key';
                             combinedVersionHash := Some hash;
                             fileURLs := Some urls |} |}.

Definition unsyncThread (env : Env) (thread : Thread) : Async unit :=
  let metadata := default emptyMetadata (metadataForPluginId thread) in
  _ <- postAsync env (key metadata) UnsharedJSON ;;
  queueTask {| model := thread;
               value := {| shared := Some false;
                           key := key metadata;
                           combinedVersionHash := None;
                           fileURLs := None |} |}.

(** ** Persisting the queued metadata *)

(** The thread with [metadata] stored as the plugin's value. *)
Definition withMetadata (thread : Thread) (metadata : Metadata) : Thread :=
  {| thread_id := thread_id thread;
     subject := subject thread;
     firstMessageTimestamp := firstMessageTimestamp thread;
     lastMessageSentTimestamp := lastMessageSentTimestamp thread;
     lastMessageReceivedTimestamp := lastMessageReceivedTimestamp thread;
     pluginMetadata := Some metadata |}.

(** Modelled from the spec: [SyncbackMetadataTask], run by the task queue
    outside the plugin, stores [value] as the plugin's metadata of the model
    it names. *)
Definition performTask (task : Task) (thread : Thread) : Thread :=
  if decide (thread_id (model task) = thread_id thread)
  then withMetadata thread (value task)
  else thread.

Definition persistEffect (thread : Thread) (e : Effect) : Thread :=
  match e with
  | QueueTask task => performTask task thread
  | _ => thread
  end.

(** The thread as stored once every task queued in [trace] has run. *)
Definition persist (trace : list Effect) (thread : Thread) : Thread :=
  fold_left persistEffect trace thread.

(** A run of the engine on one thread: each call is made on the thread as
    stored after the calls before it. *)
Inductive Op : Type :=
  | Publish (env : Env)
  | Unpublish (env : Env).

Definition perform (op : Op) (thread : Thread) : Async unit :=
  match op with
  | Publish env => syncThreadToWeb env thread
  | Unpublish env => unsyncThread env thread
  end.

Definition step (thread : Thread) (op : Op) : Thread :=
  persist (fst (perform op thread)) thread.

Definition run (ops : list Op) (thread : Thread) : Thread :=
  fold_left step ops thread.

(** Observations on a trace. *)
Definition isSnapshotWrite (e : Effect) : bool :=
  match e with
  | PostStaticAsset _ (ThreadJSON _) (Some _) => true
  | _ => false
  end.

Definition isSnapshotAttempt (e : Effect) : bool :=
  match e with
  | PostStaticAsset _ (ThreadJSON _) _ => true
  | _ => false
  end.

Definition isUpload (e : Effect) : bool :=
  match e with
  | PostStaticAsset _ (OctetStream _) _ => true
  | _ => false
  end.

Definition isResolvedUpload (e : Effect) : bool :=
  match e with
  | PostStaticAsset _ (OctetStream _) (Some _) => true
  | _ => false
  end.

Definition isQueueTask (e : Effect) : bool :=
  match e with
  | QueueTask _ => true
  | _ => false
  end.

Definition snapshotWrites (trace : list Effect) : nat :=
  length (List.filter isSnapshotWrite trace).

Definition keyOf (thread : Thread) : option string :=
  key (default emptyMetadata (metadataForPluginId thread)).

Definition urlOf (thread : Thread) (fileId : string) : option string :=
  fileURLs (default emptyMetadata (metadataForPluginId thread)) ≫= (.!! fileId).

(** ** The scheduler *)

(** The module variables [soon] and [soonTimer]; a running timer is known by
    the time at which it is due. *)
Record Scheduler : Type := {
  soon : gmap string Thread;
  soonTimer : option Z;
}.

Definition idle : Scheduler := {| soon := ∅; soonTimer := None |}.

Definition DELAY : Z := 5000.

(** [syncThreadToWebSoon(thread)] called at time [t]. *)
Definition syncThreadToWebSoon (t : Z) (thread : Thread) (s : Scheduler) : Scheduler :=
  {| soon := <[thread_id thread := thread]> (soon s);
     soonTimer := match soonTimer s with
                  | Some due => Some due
                  | None => Some (t + DELAY)
                  end |}.

(** The timer callback: the threads handed to [syncThreadToWeb], and the
    state it leaves. *)
Definition onTimer (s : Scheduler) : list Thread * Scheduler :=
  ((map_to_list (soon s)).*2, idle).

(** What the callback does with each thread of [processing]. *)
Definition publishGuarded (env : Env) (thread : Thread) : Async unit :=
  tryCatch (syncThreadToWeb env thread)
           (fun err => emit (ConsoleLog (subject thread) err)).

(** A change record of the database, and [_onDatabaseChange] called with it
    at time [t]: only persisted threads that are shared are scheduled. *)
Record DatabaseChangeRecord : Type := {
  change_type : string;
  objectClass : string;
  objects : list Thread;
}.

Definition _onDatabaseChange (t : Z) (change : DatabaseChangeRecord) (s : Scheduler)
    : Scheduler :=
  if negb (String.eqb (change_type change) "persist")
     || negb (String.eqb (objectClass change) "Thread")
  then s
  else fold_left
         (fun s thread => if isShared thread then syncThreadToWebSoon t thread s else s)
         (objects change) s.

(** The event loop on a chronological list of notifications: a timer that is
    due by the time of a notification fires before the notification is
    handled, and a timer still running at the end fires last. The result
    lists each flush with its time and its batch. *)
Fixpoint eventLoop (events : list (Z * Thread)) (s : Scheduler) : list (Z * list Thread) :=
  match events with
  | [] =>
      match soonTimer s with
      | Some due => [(due, fst (onTimer s))]
      | None => []
      end
  | (t, thread) :: rest =>
      match soonTimer s with
      | Some due =>
          if due <=? t
          then (due, fst (onTimer s))
                 :: eventLoop rest (syncThreadToWebSoon t thread (snd (onTimer s)))
          else eventLoop rest (syncThreadToWebSoon t thread s)
      | None => eventLoop rest (syncThreadToWebSoon t thread s)
      end
  end.

(** The number of times a flush publishes the entity [i]. *)
Definition publishCount (i : string) (batch : list Thread) : nat :=
  length (List.filter (fun th => String.eqb (thread_id th) i) batch).

(** ** What a call of the pipeline amounts to

    The link an attachment gets, the map the upload loop ends with and the
    trace it leaves, as plain functions of the environment. The lemmas below
    show that [uploadLoop] and [syncThreadToWeb] compute them. *)
Definition linkOf (env : Env) (file : File) : option string :=
  match readFile env (pathForFile env file) with
  | Some data =>
      if (length data =? 0)%nat then None
      else postStaticAsset env (Some (file_id file +:+ "/" +:+ displayName file))
                           (OctetStream data)
  | None => None
  end.

Definition recordLink (env : Env) (urls : gmap string string) (file : File)
    : gmap string string :=
  match linkOf env file with
  | Some link => <[file_id file := link]> urls
  | None => urls
  end.

Definition uploadedURLs (env : Env) (stack : list File) (urls : gmap string string)
    : gmap string string :=
  fold_left (recordLink env) stack urls.

Definition stepTrace (env : Env) (file : File) : list Effect :=
  match uploadFile env file with
  | (t, Resolved _) => t
  | (t, Rejected err) => t ++ [ConsoleLog (displayName file) err]
  end.

Definition loopTrace (env : Env) (stack : list File) : list Effect :=
  flat_map (stepTrace env) stack.

Definition storedMetadata (thread : Thread) : Metadata :=
  default emptyMetadata (metadataForPluginId thread).

Definition storedURLs (thread : Thread) : gmap string string :=
  default ∅ (fileURLs (storedMetadata thread)).

(** The attachments a publish of [thread] sets out to upload, the map it ends
    with, the document it posts and the metadata it queues. *)
Definition pendingFiles (env : Env) (thread : Thread) : list File :=
  toUploadOf (storedURLs thread) (visibleMessages env thread).

Definition publishedURLs (env : Env) (thread : Thread) : gmap string string :=
  uploadedURLs env (rev (pendingFiles env thread)) (storedURLs thread).

Definition publishedKey (env : Env) (thread : Thread) : string :=
  keyFor env thread (storedMetadata thread).

Definition publishedDocument (env : Env) (thread : Thread) : Document :=
  documentOf env thread (publishedURLs env thread) (visibleMessages env thread).

Definition publishedMetadata (env : Env) (thread : Thread) : Metadata :=
  {| shared := Some true;
     key := Some (publishedKey env thread);
     combinedVersionHash := Some (combinedVersionHashOf (visibleMessages env thread));
     fileURLs := Some (publishedURLs env thread) |}.

(** The value [unsyncThread] queues. *)
Definition unsharedMetadata (thread : Thread) : Metadata :=
  {| shared := Some false; key := key (storedMetadata thread);
     combinedVersionHash := None; fileURLs := None |}.

Definition upToDate (env : Env) (thread : Thread) : Prop :=
  combinedVersionHash (storedMetadata thread)
  = Some (combinedVersionHashOf (visibleMessages env thread)).

#[global] Instance upToDate_dec (env : Env) (thread : Thread) : Decision (upToDate env thread) :=
  decide (combinedVersionHash (storedMetadata thread)
          = Some (combinedVersionHashOf (visibleMessages env thread))).

(** Whether a string holds the delimiter ['|'], and what [join] puts after
    the first element of an array. *)
Fixpoint hasBar (s : string) : bool :=
  match s with
  | EmptyString => false
  | String c s' => Ascii.eqb c "|" || hasBar s'
  end.

Definition joinTail (l : list string) : string :=
  match l with
  | [] => ""
  | _ :: _ => "|" +:+ String.concat "|" l
  end.

(** The notifications of a window, handled in order. *)
Definition notifyAll (events : list (Z * Thread)) (s : Scheduler) : Scheduler :=
  fold_left (fun s e => syncThreadToWebSoon e.1 e.2 s) events s.

(** The thread of the last notification about entity [i]. *)
Definition lastNotified (i : string) (events : list (Z * Thread)) : option Thread :=
  snd <$> List.find (fun e => String.eqb (thread_id e.2) i) (rev events).

(** ** The matching policy in the words of the specification

    "[firstUnitTime] falls within [date ± ε]": the band with its bounds. The
    code is compared with it below. *)
Definition withinBand (d t : Z) : Prop :=
  d - DATE_EPSILON <= t <= d + DATE_EPSILON.

(** The band the comparators [lessThan] and [greaterThan] select. *)
Definition insideBand (d t : Z) : Prop :=
  d - DATE_EPSILON < t < d + DATE_EPSILON.

Definition matchesDate (s : string) (d : Z) (t : Thread) : Prop :=
  subject t = s ∧ insideBand d (firstMessageTimestamp t).

Definition matchesLastDate (s : string) (l : Z) (t : Thread) : Prop :=
  subject t = s ∧
  (insideBand l (lastMessageSentTimestamp t) ∨
   insideBand l (lastMessageReceivedTimestamp t)).

Definition byDate (s : string) (d : Z) : MailspringLinkParams :=
  {| link_subject := s; lastDate := None; date := Some (Num d) |}.

Definition byLastDate (s : string) (l : Z) : MailspringLinkParams :=
  {| link_subject := s; lastDate := Some (Num l); date := None |}.

(** ** Sample data

    A thread of two messages and three attachments, and the worlds the
    examples below run it against. *)
Definition fileA : File := {| file_id := "f1"; displayName := "a.txt" |}.
Definition fileB : File := {| file_id := "f2"; displayName := "b.txt" |}.
Definition fileC : File := {| file_id := "f3"; displayName := "c.txt" |}.

Definition sampleMessages : list Message :=
  [ {| message_id := "m1"; version := 12; body := "hello"; isHidden := false;
       files := [fileA; fileB] |};
    {| message_id := "m2"; version := 3; body := "world"; isHidden := false;
       files := [fileC] |} ].

Definition sampleThread : Thread :=
  {| thread_id := "t1"; subject := "Hi";
     firstMessageTimestamp := 1000;
     lastMessageSentTimestamp := 1500;
     lastMessageReceivedTimestamp := 1600;
     pluginMetadata := None |}.

(** Every request resolves; the attachment [fileB] is not on disk. *)
Definition sampleEnv : Env :=
  {| findAllMessages := fun _ => sampleMessages;
     pathForFile := fun f => "/files/" +:+ file_id f;
     readFile := fun path => if String.eqb path "/files/f2" then Some [] else Some [Byte.x41];
     postStaticAsset := fun filename _ => (fun n => "https://shared.test/" +:+ n) <$> filename;
     now := 1234;
     identity := {| firstName := "Ada"; lastName := "Byron";
                    emailAddress := "ada@example.com" |};
     removeQuotedHTML := fun html => html |}.

(** As [sampleEnv], with the request that posts the thread's JSON rejected. *)
Definition rejectingEnv : Env :=
  {| findAllMessages := findAllMessages sampleEnv;
     pathForFile := pathForFile sampleEnv;
     readFile := readFile sampleEnv;
     postStaticAsset := fun filename blob =>
                          match blob with
                          | ThreadJSON _ => None
                          | _ => postStaticAsset sampleEnv filename blob
                          end;
     now := now sampleEnv;
     identity := identity sampleEnv;
     removeQuotedHTML := removeQuotedHTML sampleEnv |}.

(** As [sampleEnv] at a later time, when the first message has a new version
    and has lost its attachments. *)
Definition laterEnv : Env :=
  {| findAllMessages := fun _ =>
       [ {| message_id := "m1"; version := 13; body := "hello again"; isHidden := false;
            files := [] |};
         {| message_id := "m2"; version := 3; body := "world"; isHidden := false;
            files := [fileC] |} ];
     pathForFile := pathForFile sampleEnv;
     readFile := readFile sampleEnv;
     postStaticAsset := postStaticAsset sampleEnv;
     now := 5678;
     identity := identity sampleEnv;
     removeQuotedHTML := removeQuotedHTML sampleEnv |}.

(** [sampleThread] as stored after its first publish. *)
Definition sharedThread : Thread := step sampleThread (Publish sampleEnv).

(** As [sampleEnv] at a later time, when the first message has a new version
    and still has its attachments. *)
Definition editedEnv : Env :=
  {| findAllMessages := fun _ =>
       [ {| message_id := "m1"; version := 13; body := "hello again"; isHidden := false;
            files := [fileA; fileB] |};
         {| message_id := "m2"; version := 3; body := "world"; isHidden := false;
            files := [fileC] |} ];
     pathForFile := pathForFile sampleEnv;
     readFile := readFile sampleEnv;
     postStaticAsset := postStaticAsset sampleEnv;
     now := 5678;
     identity := identity sampleEnv;
     removeQuotedHTML := removeQuotedHTML sampleEnv |}.

(** The white space [parseInt] skips, each in its UTF-8 form: U+0009 to
    U+000D, U+0020, U+00A0, U+1680, U+2000 to U+200A, U+2028, U+2029, U+202F,
    U+205F, U+3000 and U+FEFF. *)
Definition utf8 (bytes : list nat) : string :=
  string_of_list_ascii (map ascii_of_nat bytes).

Definition strWhiteSpace : list string :=
  map utf8
    [ [9]; [10]; [11]; [12]; [13]; [32]; [194; 160]; [225; 154; 128];
      [226; 128; 128]; [226; 128; 129]; [226; 128; 130]; [226; 128; 131];
      [226; 128; 132]; [226; 128; 133]; [226; 128; 134]; [226; 128; 135];
      [226; 128; 136]; [226; 128; 137]; [226; 128; 138];
      [226; 128; 168]; [226; 128; 169]; [226; 128; 175]; [226; 129; 159];
      [227; 128; 128]; [239; 187; 191] ]%nat.

(** ** More of the plugin *)

(** [sharingURLForThread]; [identityId] is [IdentityStore.identity().id]. *)
Definition sharingURLForThread (identityId : string) (thread : Thread) : option string :=
  let metadata := default emptyMetadata (metadataForPluginId thread) in
  if negb (truthyStr (key metadata)) || negb (default false (shared metadata))
  then None
  else Some ("https://shared.getmailspring.com/thread/" +:+ identityId +:+ "/"
               +:+ default "" (key metadata)).

(** Notifications in the order of their times. *)
Fixpoint chronological (events : list (Z * Thread)) : Prop :=
  match events with
  | [] => True
  | e :: rest => Forall (fun e' => e.1 <= e'.1) rest ∧ chronological rest
  end.

(** The query string of a link that names a thread by its subject and its
    first message's time. *)
Definition linkByDate (t : Thread) : QueryParams :=
  {| q_subject := subject t;
     q_date := Some (pretty (firstMessageTimestamp t));
     q_lastDate := None |}.

(** Every thread in the buffer is filed under its own id. *)
Definition filedById (s : Scheduler) : Prop :=
  ∀ k th, soon s !! k = Some th -> thread_id th = k.

(** A timer runs only while the buffer holds a thread. *)
Definition timerHasWork (s : Scheduler) : Prop :=
  ∀ due, soonTimer s = Some due -> soon s ≠ ∅.

(** The parts of a trace. *)
Definition isAssetEffect (e : Effect) : bool :=
  match e with
  | PostStaticAsset _ (OctetStream _) _ => true
  | ConsoleLog _ _ => true
  | _ => false
  end.

(** * Properties of the resolver *)

Section Resolver.

Implicit Types (t : Thread) (s : string) (store : list Thread).

Lemma find_ext_bool {A : Type} (f g : A -> bool) (l : list A) :
  (∀ x, f x = g x) -> List.find f l = List.find g l.
Proof.
  intros Hfg. induction l as [|x l IH]; simpl; [reflexivity|].
  rewrite Hfg, IH. reflexivity.
Qed.

Lemma evaluate_date_clause s d ld t :
  d ≠ 0 ->
  evaluate (And [ SubjectEqual s;
                  dateClauseOf {| link_subject := s; lastDate := ld; date := Some (Num d) |}
                               DATE_EPSILON ]) t
  = bool_decide (matchesDate s d t).
Proof.
  intros Hd. unfold dateClauseOf, matchesDate, insideBand. simpl.
  destruct (Z.eqb_spec d 0) as [|_]; [contradiction|]. simpl.
  rewrite !andb_true_r.
  destruct (String.eqb_spec (subject t) s) as [Hs|Hs];
    destruct (Z.ltb_spec (firstMessageTimestamp t) (d + DATE_EPSILON));
    destruct (Z.ltb_spec (d - DATE_EPSILON) (firstMessageTimestamp t)); simpl;
    symmetry; first [ apply bool_decide_eq_true | apply bool_decide_eq_false ];
    intuition lia.
Qed.

Lemma evaluate_lastDate_clause s l dt t :
  truthyNum dt = false ->
  evaluate (And [ SubjectEqual s;
                  dateClauseOf {| link_subject := s; lastDate := Some (Num l); date := dt |}
                               DATE_EPSILON ]) t
  = bool_decide (matchesLastDate s l t).
Proof.
  intros Hdt. unfold dateClauseOf, matchesLastDate, insideBand. simpl.
  rewrite Hdt. simpl. rewrite !andb_true_r, !orb_false_r.
  destruct (String.eqb_spec (subject t) s) as [Hs|Hs];
    destruct (Z.ltb_spec (lastMessageSentTimestamp t) (l + DATE_EPSILON));
    destruct (Z.ltb_spec (l - DATE_EPSILON) (lastMessageSentTimestamp t));
    destruct (Z.ltb_spec (lastMessageReceivedTimestamp t) (l + DATE_EPSILON));
    destruct (Z.ltb_spec (l - DATE_EPSILON) (lastMessageReceivedTimestamp t)); simpl;
    symmetry; first [ apply bool_decide_eq_true | apply bool_decide_eq_false ];
    intuition lia.
Qed.

(** With neither a truthy [date] nor a [lastDate], both bounds of both
    bands are [NaN] and the clause holds for no thread. *)
Lemma evaluate_undefined_clause s dt t :
  truthyNum dt = false ->
  evaluate (And [ SubjectEqual s;
                  dateClauseOf {| link_subject := s; lastDate := None; date := dt |}
                               DATE_EPSILON ]) t
  = false.
Proof.
  intros Hdt. unfold dateClauseOf. simpl. rewrite Hdt. simpl.
  apply andb_false_r.
Qed.

Lemma find_none_all {A : Type} (f : A -> bool) (l : list A) :
  (∀ x, f x = false) -> List.find f l = None.
Proof.
  intros Hf. induction l as [|x l IH]; simpl; [reflexivity|].
  rewrite Hf. exact IH.
Qed.

End Resolver.

(** C6 (as amended). For a locator whose [date] is a non-zero number, the
    resolver returns the first stored thread whose subject equals the
    locator's and whose [firstMessageTimestamp] lies strictly between
    [date - 60] and [date + 60]; the bounds themselves do not match. A thread
    with [firstMessageTimestamp = 1000] and subject "Hi" is found for
    [date = 1030] and not found for [date = 1200]. *)
Theorem resolve_by_date (store : list Thread) (s : string) (d : Z) (ld : option JsNum) :
  d ≠ 0 ->
  _findCorrespondingThread store
    {| link_subject := s; lastDate := ld; date := Some (Num d) |} DATE_EPSILON
  = List.find (fun t => bool_decide (matchesDate s d t)) store
  ∧ (∀ t : Thread, subject t = "Hi" -> firstMessageTimestamp t = 1000 ->
       _findCorrespondingThread [t] (byDate "Hi" 1030) DATE_EPSILON = Some t
       ∧ _findCorrespondingThread [t] (byDate "Hi" 1200) DATE_EPSILON = None).
Proof.
  intros Hd. split.
  - unfold _findCorrespondingThread, findBy.
    apply find_ext_bool. intros t. by apply evaluate_date_clause.
  - intros t Hs Ht.
    unfold _findCorrespondingThread, findBy, byDate. cbn [List.find].
    rewrite !evaluate_date_clause by lia.
    split.
    + rewrite bool_decide_eq_true_2; [reflexivity|].
      unfold matchesDate, insideBand, DATE_EPSILON. rewrite Ht. split; [done|lia].
    + rewrite bool_decide_eq_false_2; [reflexivity|].
      unfold matchesDate, insideBand, DATE_EPSILON. rewrite Ht. intros [_ ?]. lia.
Qed.

Lemma resolve_by_date_witness :
  let t := {| thread_id := "t1"; subject := "Hi"; firstMessageTimestamp := 1000;
              lastMessageSentTimestamp := 1500; lastMessageReceivedTimestamp := 1600;
              pluginMetadata := None |} in
  1030 ≠ 0
  ∧ _findCorrespondingThread [t] (byDate "Hi" 1030) DATE_EPSILON = Some t
  ∧ _findCorrespondingThread [t] (byDate "Hi" 1200) DATE_EPSILON = None.
Proof.
  intros t. split; [lia|].
  apply (proj2 (resolve_by_date [] "Hi" 1030 None ltac:(lia)) t); reflexivity.
Defined.

(** C6 (as stated) fails on the bound of the band: a thread whose
    [firstMessageTimestamp] is exactly [date - 60] has the locator's subject
    and falls within [date ± 60], and the resolver does not return it. *)
Lemma resolve_by_date_bound_excluded :
  let t := {| thread_id := "t1"; subject := "Hi"; firstMessageTimestamp := 1000;
              lastMessageSentTimestamp := 1500; lastMessageReceivedTimestamp := 1600;
              pluginMetadata := None |} in
  (subject t = link_subject (byDate "Hi" 1060)
   ∧ withinBand 1060 (firstMessageTimestamp t))
  ∧ _findCorrespondingThread [t] (byDate "Hi" 1060) DATE_EPSILON = None.
Proof.
  intros t. split; [split|].
  - reflexivity.
  - unfold withinBand, DATE_EPSILON. simpl. lia.
  - reflexivity.
Qed.

(** A [date] of 0 is not taken as a date clue: a thread first sent 30 seconds
    after the epoch, with the locator's subject, is not found for [date = 0]. *)
Lemma resolve_by_date_zero_not_a_clue :
  let t := {| thread_id := "t1"; subject := "Hi"; firstMessageTimestamp := 30;
              lastMessageSentTimestamp := 1500; lastMessageReceivedTimestamp := 1600;
              pluginMetadata := None |} in
  withinBand 0 (firstMessageTimestamp t)
  ∧ insideBand 0 (firstMessageTimestamp t)
  ∧ _findCorrespondingThread [t] (byDate "Hi" 0) DATE_EPSILON = None.
Proof.
  intros t. unfold withinBand, insideBand, DATE_EPSILON. simpl.
  repeat split; (lia || reflexivity).
Qed.

(** C7 (as amended). For a locator with only a [lastDate], the resolver
    returns the first stored thread whose subject equals the locator's and
    whose [lastMessageSentTimestamp] or [lastMessageReceivedTimestamp] lies
    strictly between [lastDate - 60] and [lastDate + 60]. A thread with
    sent time 500 and received time 2000 is found for [lastDate = 520] and
    for [lastDate = 1980]. *)
Theorem resolve_by_lastDate (store : list Thread) (s : string) (l : Z) :
  _findCorrespondingThread store (byLastDate s l) DATE_EPSILON
  = List.find (fun t => bool_decide (matchesLastDate s l t)) store
  ∧ (∀ t : Thread, subject t = "X" -> lastMessageSentTimestamp t = 500 ->
       lastMessageReceivedTimestamp t = 2000 ->
       _findCorrespondingThread [t] (byLastDate "X" 520) DATE_EPSILON = Some t
       ∧ _findCorrespondingThread [t] (byLastDate "X" 1980) DATE_EPSILON = Some t).
Proof.
  split.
  - unfold _findCorrespondingThread, findBy.
    apply find_ext_bool. intros t. by apply evaluate_lastDate_clause.
  - intros t Hs Hsent Hrecv.
    unfold _findCorrespondingThread, findBy, byLastDate. cbn [List.find].
    rewrite !evaluate_lastDate_clause by reflexivity.
    split; (rewrite bool_decide_eq_true_2; [reflexivity|]);
      unfold matchesLastDate, insideBand, DATE_EPSILON; rewrite Hsent, Hrecv;
      (split; [done|lia]).
Qed.

Lemma resolve_by_lastDate_witness :
  let t := {| thread_id := "t1"; subject := "X"; firstMessageTimestamp := 100;
              lastMessageSentTimestamp := 500; lastMessageReceivedTimestamp := 2000;
              pluginMetadata := None |} in
  _findCorrespondingThread [t] (byLastDate "X" 520) DATE_EPSILON = Some t
  ∧ _findCorrespondingThread [t] (byLastDate "X" 1980) DATE_EPSILON = Some t.
Proof.
  intros t.
  apply (proj2 (resolve_by_lastDate [t] "X" 520) t); reflexivity.
Defined.

(** C7 (as stated) fails on the bound of the band: a thread whose
    [lastMessageSentTimestamp] is exactly [lastDate - 60] falls within
    [lastDate ± 60], and the resolver does not return it. *)
Lemma resolve_by_lastDate_bound_excluded :
  let t := {| thread_id := "t1"; subject := "X"; firstMessageTimestamp := 100;
              lastMessageSentTimestamp := 500; lastMessageReceivedTimestamp := 2000;
              pluginMetadata := None |} in
  (subject t = link_subject (byLastDate "X" 560)
   ∧ (withinBand 560 (lastMessageSentTimestamp t)
      ∨ withinBand 560 (lastMessageReceivedTimestamp t)))
  ∧ _findCorrespondingThread [t] (byLastDate "X" 560) DATE_EPSILON = None.
Proof.
  intros t. split; [split|].
  - reflexivity.
  - left. unfold withinBand, DATE_EPSILON. simpl. lia.
  - reflexivity.
Qed.

(** C10. A locator whose [date] is 0 is resolved by the [lastDate] clause
    and not by the time of the first message: the clause built for it is the
    disjunction of the two bands around [lastDate], the one a locator without
    [date] gets, so with a [lastDate] the resolver returns the first stored
    thread with the subject whose sent or received time lies in the band,
    whatever its first message's time. The query string [date=0] parses to
    such a locator. When it has no [lastDate], the four bounds of the clause
    are [undefined + 60] and [undefined - 60], that is [NaN]; no stored
    thread matches, and opening the link reports the thread as not found. *)
Theorem resolve_date_zero (store : list Thread) (s : string) (ld : option JsNum) (l : Z) :
  dateClauseOf {| link_subject := s; lastDate := ld; date := Some (Num 0) |} DATE_EPSILON
  = Or [ And [ LessThan LastMessageSentTimestamp (jsPlus ld DATE_EPSILON);
               GreaterThan LastMessageSentTimestamp (jsMinus ld DATE_EPSILON) ];
         And [ LessThan LastMessageReceivedTimestamp (jsPlus ld DATE_EPSILON);
               GreaterThan LastMessageReceivedTimestamp (jsMinus ld DATE_EPSILON) ] ]
  ∧ dateClauseOf {| link_subject := s; lastDate := ld; date := Some (Num 0) |} DATE_EPSILON
    = dateClauseOf {| link_subject := s; lastDate := ld; date := None |} DATE_EPSILON
  ∧ _findCorrespondingThread store
      {| link_subject := s; lastDate := Some (Num l); date := Some (Num 0) |} DATE_EPSILON
    = List.find (fun t => bool_decide (matchesLastDate s l t)) store
  ∧ _parseOpenThreadUrl {| q_subject := s; q_date := Some "0"; q_lastDate := None |}
    = {| link_subject := s; lastDate := None; date := Some (Num 0) |}
  ∧ dateClauseOf {| link_subject := s; lastDate := None; date := Some (Num 0) |} DATE_EPSILON
    = Or [ And [ LessThan LastMessageSentTimestamp NaN;
                 GreaterThan LastMessageSentTimestamp NaN ];
           And [ LessThan LastMessageReceivedTimestamp NaN;
                 GreaterThan LastMessageReceivedTimestamp NaN ] ]
  ∧ _findCorrespondingThread store
      {| link_subject := s; lastDate := None; date := Some (Num 0) |} DATE_EPSILON = None
  ∧ _onOpenThreadFromWeb store {| q_subject := s; q_date := Some "0"; q_lastDate := None |}
    = ThreadNotFound s.
Proof.
  assert (Hnone : _findCorrespondingThread store
            {| link_subject := s; lastDate := None; date := Some (Num 0) |} DATE_EPSILON
          = None).
  { unfold _findCorrespondingThread, findBy. apply find_none_all.
    intros t. by apply evaluate_undefined_clause. }
  split; [reflexivity|]. split; [reflexivity|]. split.
  { unfold _findCorrespondingThread, findBy. apply find_ext_bool.
    intros t. by apply evaluate_lastDate_clause. }
  split; [reflexivity|]. split; [reflexivity|]. split; [exact Hnone|].
  unfold _onOpenThreadFromWeb.
  change (_parseOpenThreadUrl {| q_subject := s; q_date := Some "0"; q_lastDate := None |})
    with {| link_subject := s; lastDate := None; date := Some (Num 0) |}.
  rewrite Hnone. reflexivity.
Qed.

(** With [date = 0] the thread is found by its last sent time (1500, for
    [lastDate = 1510]) although its first message (1000) is far from 0, and
    a thread whose first message is 30 seconds from 0 is not found by it. *)
Lemma resolve_date_zero_witness :
  let early := {| thread_id := "t0"; subject := "Hi"; firstMessageTimestamp := 30;
                  lastMessageSentTimestamp := 9000; lastMessageReceivedTimestamp := 9000;
                  pluginMetadata := None |} in
  _findCorrespondingThread [early; sampleThread]
    {| link_subject := "Hi"; lastDate := Some (Num 1510); date := Some (Num 0) |}
    DATE_EPSILON
  = Some sampleThread
  ∧ _onOpenThreadFromWeb [early; sampleThread]
      {| q_subject := "Hi"; q_date := Some "0"; q_lastDate := None |}
    = ThreadNotFound "Hi".
Proof.
  intros early.
  destruct (resolve_date_zero [early; sampleThread] "Hi" None 1510)
    as (_ & _ & Hfound & _ & _ & _ & Hnotfound).
  split; [|exact Hnotfound].
  rewrite Hfound. reflexivity.
Defined.

(** * Strings *)

Section Strings.

Implicit Types (a b : string).

Lemma append_cons (c : ascii) a b : String c a +:+ b = String c (a +:+ b).
Proof. reflexivity. Qed.

Lemma append_nil b : "" +:+ b = b.
Proof. reflexivity. Qed.

Lemma append_empty a : a +:+ "" = a.
Proof. induction a as [|c a IH]; [reflexivity|]. by rewrite append_cons, IH. Qed.

Lemma append_nonempty_r a b : b ≠ "" -> a +:+ b ≠ "".
Proof. intros Hb. destruct a; [by rewrite append_nil|by rewrite append_cons]. Qed.

End Strings.

(** * Properties of the publish pipeline *)

Section Pipeline.

Implicit Types (env : Env) (thread : Thread) (file : File).
Implicit Types (urls : gmap string string) (trace : list Effect).

(** The upload loop logs what fails and always runs to its end. *)
Lemma uploadStep_spec env file urls :
  uploadStep env file urls = (stepTrace env file, Resolved (recordLink env urls file)).
Proof.
  unfold uploadStep, stepTrace, recordLink, linkOf, uploadFile, readFileAsync, postAsync.
  destruct (readFile env (pathForFile env file)) as [data|]; simpl; [|reflexivity].
  destruct (length data =? 0)%nat; simpl; [reflexivity|].
  destruct (postStaticAsset env _ _) as [link|]; reflexivity.
Qed.

Lemma uploadLoop_spec env stack urls :
  uploadLoop env stack urls = (loopTrace env stack, Resolved (uploadedURLs env stack urls)).
Proof.
  revert urls. induction stack as [|file rest IH]; intros urls; simpl; [reflexivity|].
  rewrite uploadStep_spec. unfold await. rewrite IH. reflexivity.
Qed.

Lemma syncThreadToWeb_noop env thread :
  upToDate env thread -> syncThreadToWeb env thread = ([], Resolved tt).
Proof.
  unfold upToDate, storedMetadata, syncThreadToWeb. intros Heq.
  destruct (decide _) as [_|Hne]; [reflexivity|contradiction].
Qed.

Lemma syncThreadToWeb_publish env thread :
  ¬ upToDate env thread ->
  syncThreadToWeb env thread =
    let filename := Some (publishedKey env thread) in
    let blob := ThreadJSON (publishedDocument env thread) in
    match postStaticAsset env filename blob with
    | Some link =>
        (loopTrace env (rev (pendingFiles env thread))
           ++ [ PostStaticAsset filename blob (Some link);
                QueueTask {| model := thread; value := publishedMetadata env thread |} ],
         Resolved tt)
    | None =>
        (loopTrace env (rev (pendingFiles env thread))
           ++ [ PostStaticAsset filename blob None ],
         Rejected (RequestRejected filename))
    end.
Proof.
  unfold upToDate, storedMetadata, syncThreadToWeb. intros Hne.
  destruct (decide _) as [Heq|_]; [contradiction|].
  rewrite uploadLoop_spec. unfold await, postAsync, queueTask, emit.
  fold (storedMetadata thread). fold (storedURLs thread).
  fold (pendingFiles env thread). fold (publishedURLs env thread).
  fold (publishedKey env thread). fold (publishedDocument env thread).
  cbv zeta.
  destruct (postStaticAsset env _ _) as [link|]; reflexivity.
Qed.

Lemma stepTrace_effects env file e :
  In e (stepTrace env file) ->
  isSnapshotAttempt e = false ∧ isQueueTask e = false.
Proof.
  unfold stepTrace, uploadFile, readFileAsync, postAsync.
  destruct (readFile env (pathForFile env file)) as [data|]; simpl.
  - destruct (length data =? 0)%nat; simpl.
    + intros [<-|[]]; done.
    + destruct (postStaticAsset env _ _) as [link|]; simpl.
      * intros [<-|[]]; done.
      * intros [<-|[<-|[]]]; done.
  - intros [<-|[]]; done.
Qed.

Lemma loopTrace_effects env stack e :
  In e (loopTrace env stack) ->
  isSnapshotAttempt e = false ∧ isQueueTask e = false.
Proof.
  unfold loopTrace. rewrite in_flat_map. intros (file & _ & He).
  by apply stepTrace_effects in He.
Qed.

Lemma filter_none {A : Type} (f : A -> bool) (l : list A) :
  (∀ x, In x l -> f x = false) -> List.filter f l = [].
Proof.
  induction l as [|x l IH]; simpl; intros Hf; [reflexivity|].
  rewrite (Hf x) by auto. apply IH. auto.
Qed.

Lemma loopTrace_no_snapshot env stack :
  List.filter isSnapshotWrite (loopTrace env stack) = [].
Proof.
  apply filter_none. intros e He. apply loopTrace_effects in He as [He _].
  destruct e as [? [] []| |]; done.
Qed.

Lemma loopTrace_no_task env stack :
  List.filter isQueueTask (loopTrace env stack) = [].
Proof.
  apply filter_none. intros e He. by apply loopTrace_effects in He as [_ He].
Qed.

Lemma persist_app trace1 trace2 thread :
  persist (trace1 ++ trace2) thread = persist trace2 (persist trace1 thread).
Proof. apply fold_left_app. Qed.

Lemma persist_no_task trace thread :
  (∀ e, In e trace -> isQueueTask e = false) -> persist trace thread = thread.
Proof.
  induction trace as [|e trace IH]; simpl; intros Hno; [reflexivity|].
  unfold persist in *. simpl.
  assert (He : isQueueTask e = false) by auto.
  destruct e; [|discriminate|]; simpl; apply IH; auto.
Qed.

Lemma persist_loopTrace env stack thread :
  persist (loopTrace env stack) thread = thread.
Proof.
  apply persist_no_task. intros e He. by apply loopTrace_effects in He as [_ He].
Qed.

Lemma performTask_own thread metadata :
  performTask {| model := thread; value := metadata |} thread
  = withMetadata thread metadata.
Proof. unfold performTask. simpl. by rewrite decide_True. Qed.

Lemma visibleMessages_same_store env env' thread :
  findAllMessages env' (thread_id thread) = findAllMessages env (thread_id thread) ->
  visibleMessages env' thread = visibleMessages env thread.
Proof. unfold visibleMessages. by intros ->. Qed.

End Pipeline.

(** C1. When a publish has completed and the metadata it queued is stored,
    a second publish of the same thread with the same messages finds the
    stored [combinedVersionHash] equal to the fingerprint and returns with an
    empty trace: no upload, no snapshot write, no queued task. Over the two
    calls the snapshot is written once, by the first call (not at all when
    the thread was already up to date before it). *)
Theorem publish_twice_writes_once (env1 env2 : Env) (thread : Thread) (trace : list Effect) :
  findAllMessages env2 (thread_id thread) = findAllMessages env1 (thread_id thread) ->
  syncThreadToWeb env1 thread = (trace, Resolved tt) ->
  upToDate env2 (persist trace thread)
  ∧ syncThreadToWeb env2 (persist trace thread) = ([], Resolved tt)
  ∧ snapshotWrites (trace ++ fst (syncThreadToWeb env2 (persist trace thread)))
    = (if bool_decide (upToDate env1 thread) then 0 else 1)%nat.
Proof.
  intros Hmsgs Hfirst.
  assert (Hup : upToDate env2 (persist trace thread)
                ∧ snapshotWrites trace
                  = (if bool_decide (upToDate env1 thread) then 0 else 1)%nat).
  { destruct (decide (upToDate env1 thread)) as [Hold|Hnew].
    - rewrite (syncThreadToWeb_noop _ _ Hold) in Hfirst. injection Hfirst as <-.
      rewrite bool_decide_eq_true_2 by done. split; [|reflexivity].
      unfold upToDate in *. simpl. rewrite Hold.
      do 2 f_equal. unfold visibleMessages. by rewrite Hmsgs.
    - rewrite (syncThreadToWeb_publish _ _ Hnew) in Hfirst. cbv zeta in Hfirst.
      rewrite bool_decide_eq_false_2 by done.
      destruct (postStaticAsset env1 _ _) as [link|]; [|discriminate].
      injection Hfirst as <-. split.
      + rewrite persist_app, persist_loopTrace. unfold persist. simpl.
        rewrite performTask_own. unfold upToDate. simpl.
        do 2 f_equal. unfold visibleMessages. simpl. by rewrite Hmsgs.
      + unfold snapshotWrites. rewrite List.filter_app, loopTrace_no_snapshot. reflexivity. }
  destruct Hup as [Hup Hcount].
  split; [exact Hup|].
  rewrite (syncThreadToWeb_noop _ _ Hup). simpl.
  split; [reflexivity|]. by rewrite app_nil_r.
Qed.

(** C3. When the snapshot write of a publish is rejected, the call is
    rejected, nothing is queued, no snapshot has been written and the stored
    thread, its metadata and [combinedVersionHash] included, is what it was;
    the next publish of the thread is not short-circuited: it runs the upload
    loop over the same attachments and posts the snapshot again. *)
Theorem snapshot_failure_aborts (env : Env) (thread : Thread) (filename : option string)
    (doc : Document) :
  In (PostStaticAsset filename (ThreadJSON doc) None) (fst (syncThreadToWeb env thread)) ->
  (∃ err, snd (syncThreadToWeb env thread) = Rejected err)
  ∧ List.filter isQueueTask (fst (syncThreadToWeb env thread)) = []
  ∧ snapshotWrites (fst (syncThreadToWeb env thread)) = 0%nat
  ∧ persist (fst (syncThreadToWeb env thread)) thread = thread
  ∧ ∀ env2 : Env,
      findAllMessages env2 (thread_id thread) = findAllMessages env (thread_id thread) ->
      pendingFiles env2 (persist (fst (syncThreadToWeb env thread)) thread)
      = pendingFiles env thread
      ∧ ∃ result rest,
          fst (syncThreadToWeb env2 (persist (fst (syncThreadToWeb env thread)) thread))
          = loopTrace env2 (rev (pendingFiles env thread))
              ++ PostStaticAsset (Some (publishedKey env2 thread))
                   (ThreadJSON (publishedDocument env2 thread)) result :: rest.
Proof.
  intros Hfail.
  destruct (decide (upToDate env thread)) as [Hold|Hnew].
  { rewrite (syncThreadToWeb_noop _ _ Hold) in Hfail. destruct Hfail. }
  assert (Hnotasks : List.filter isQueueTask (fst (syncThreadToWeb env thread)) = []
                     ∧ (∃ err, snd (syncThreadToWeb env thread) = Rejected err)
                     ∧ snapshotWrites (fst (syncThreadToWeb env thread)) = 0%nat).
  { rewrite (syncThreadToWeb_publish _ _ Hnew) in *. cbv zeta in *.
    destruct (postStaticAsset env _ _) as [link|]; simpl in *.
    - apply in_app_or in Hfail as [Hin|[Heq|[Heq|[]]]]; try discriminate.
      by apply loopTrace_effects in Hin as [? _].
    - unfold snapshotWrites.
      rewrite !List.filter_app, loopTrace_no_task, loopTrace_no_snapshot. eauto. }
  destruct Hnotasks as (Hnotasks & Hrej & Hnowrite).
  assert (Hsame : persist (fst (syncThreadToWeb env thread)) thread = thread).
  { apply persist_no_task. intros e He.
    destruct (isQueueTask e) eqn:Hq; [|reflexivity].
    assert (In e (List.filter isQueueTask (fst (syncThreadToWeb env thread))))
      as Hin by (apply filter_In; auto).
    rewrite Hnotasks in Hin. destruct Hin. }
  split; [exact Hrej|]. split; [exact Hnotasks|]. split; [exact Hnowrite|].
  split; [exact Hsame|].
  intros env2 Hmsgs. rewrite Hsame.
  assert (Hvis : visibleMessages env2 thread = visibleMessages env thread)
    by by apply visibleMessages_same_store.
  assert (Hpending : pendingFiles env2 thread = pendingFiles env thread)
    by (unfold pendingFiles; by rewrite Hvis).
  split; [exact Hpending|].
  assert (Hnew2 : ¬ upToDate env2 thread) by (unfold upToDate in *; by rewrite Hvis).
  rewrite (syncThreadToWeb_publish _ _ Hnew2). cbv zeta. rewrite Hpending.
  destruct (postStaticAsset env2 _ _) as [link|]; simpl; eauto.
Qed.

(** * Metadata across a run of the engine *)

Section Metadata.

Implicit Types (env : Env) (thread : Thread) (file : File).
Implicit Types (urls : gmap string string) (i u k : string).

Lemma urlOf_stored thread i : urlOf thread i = storedURLs thread !! i.
Proof.
  unfold urlOf, storedURLs, storedMetadata.
  destruct (fileURLs _); simpl; [reflexivity|]. by rewrite lookup_empty.
Qed.

Lemma recordLink_lookup_ne env urls file i :
  file_id file ≠ i -> recordLink env urls file !! i = urls !! i.
Proof.
  intros Hne. unfold recordLink.
  destruct (linkOf env file); [by rewrite lookup_insert_ne|reflexivity].
Qed.

Lemma uploadedURLs_lookup_other env stack urls i :
  (∀ file, In file stack -> file_id file ≠ i) ->
  uploadedURLs env stack urls !! i = urls !! i.
Proof.
  unfold uploadedURLs. revert urls.
  induction stack as [|file rest IH]; intros urls Hne; simpl; [reflexivity|].
  rewrite IH by (intros; apply Hne; by right).
  apply recordLink_lookup_ne, Hne. by left.
Qed.

Lemma truthyStr_Some u : u ≠ "" -> truthyStr (Some u) = true.
Proof.
  intros Hu. simpl. destruct (String.eqb_spec u ""); [contradiction|reflexivity].
Qed.

(** A file whose id already has a non-empty link is not uploaded again, and
    the loop leaves its link alone. *)
Lemma publishedURLs_keeps env thread i u :
  u ≠ "" -> storedURLs thread !! i = Some u -> publishedURLs env thread !! i = Some u.
Proof.
  intros Hu Hi. unfold publishedURLs.
  rewrite uploadedURLs_lookup_other; [exact Hi|].
  intros file Hin <-. apply in_rev in Hin.
  unfold pendingFiles, toUploadOf in Hin. apply filter_In in Hin as [_ Hfalsy].
  rewrite Hi, truthyStr_Some in Hfalsy by done. discriminate.
Qed.

Lemma step_publish env thread :
  step thread (Publish env) = thread
  ∨ (¬ upToDate env thread
     ∧ step thread (Publish env) = withMetadata thread (publishedMetadata env thread)).
Proof.
  unfold step, perform.
  destruct (decide (upToDate env thread)) as [Hold|Hnew].
  - left. by rewrite syncThreadToWeb_noop.
  - rewrite (syncThreadToWeb_publish _ _ Hnew). cbv zeta.
    destruct (postStaticAsset env _ _) as [link|]; simpl.
    + right. split; [done|].
      rewrite persist_app, persist_loopTrace. unfold persist. simpl.
      apply performTask_own.
    + left. rewrite persist_app, persist_loopTrace. reflexivity.
Qed.

Lemma unsyncThread_spec env thread :
  unsyncThread env thread =
    match postStaticAsset env (keyOf thread) UnsharedJSON with
    | Some link =>
        ([ PostStaticAsset (keyOf thread) UnsharedJSON (Some link);
           QueueTask {| model := thread; value := unsharedMetadata thread |} ],
         Resolved tt)
    | None =>
        ([ PostStaticAsset (keyOf thread) UnsharedJSON None ],
         Rejected (RequestRejected (keyOf thread)))
    end.
Proof.
  unfold unsyncThread, postAsync, keyOf, unsharedMetadata, storedMetadata.
  destruct (postStaticAsset env _ _) as [link|]; reflexivity.
Qed.

Lemma step_unpublish env thread :
  step thread (Unpublish env) =
    match postStaticAsset env (keyOf thread) UnsharedJSON with
    | Some _ => withMetadata thread (unsharedMetadata thread)
    | None => thread
    end.
Proof.
  unfold step, perform. rewrite unsyncThread_spec.
  destruct (postStaticAsset env _ _) as [link|]; simpl; [|reflexivity].
  unfold persist. simpl. apply performTask_own.
Qed.

Lemma keyFor_present env thread metadata k :
  key metadata = Some k -> k ≠ "" -> keyFor env thread metadata = k.
Proof.
  intros Hk Hne. unfold keyFor. rewrite Hk, truthyStr_Some by done. reflexivity.
Qed.

Lemma keyFor_absent env thread metadata :
  key metadata = None ->
  keyFor env thread metadata = thread_id thread +:+ "-" +:+ pretty (now env).
Proof. intros Hk. unfold keyFor. by rewrite Hk. Qed.

Lemma step_keeps_key thread op k :
  k ≠ "" -> keyOf thread = Some k -> keyOf (step thread op) = Some k.
Proof.
  intros Hne Hk. destruct op as [env|env].
  - destruct (step_publish env thread) as [->|[_ ->]]; [exact Hk|].
    unfold keyOf. simpl. f_equal. unfold publishedKey.
    by apply keyFor_present.
  - rewrite step_unpublish. destruct (postStaticAsset env _ _); [|exact Hk].
    exact Hk.
Qed.

Lemma run_keeps_key ops thread k :
  k ≠ "" -> keyOf thread = Some k -> keyOf (run ops thread) = Some k.
Proof.
  intros Hne. unfold run. revert thread.
  induction ops as [|op ops IH]; intros thread Hk; simpl; [exact Hk|].
  apply IH. by apply step_keeps_key.
Qed.

Lemma step_key_nonempty thread op :
  keyOf thread ≠ Some "" -> keyOf (step thread op) ≠ Some "".
Proof.
  intros Hkey. destruct (keyOf thread) as [k|] eqn:Hk.
  - rewrite (step_keeps_key thread op k); [done| |done]. by intros ->.
  - destruct op as [env|env].
    + destruct (step_publish env thread) as [->|[_ ->]]; [by rewrite Hk|].
      unfold keyOf. simpl. unfold publishedKey. rewrite keyFor_absent by done.
      intros [= Hempty]. by apply append_nonempty_r in Hempty.
    + rewrite step_unpublish. destruct (postStaticAsset env _ _); [|by rewrite Hk].
      unfold keyOf in *. simpl in *. unfold storedMetadata. by rewrite Hk.
Qed.

Lemma run_key_nonempty ops thread :
  keyOf thread ≠ Some "" -> keyOf (run ops thread) ≠ Some "".
Proof.
  unfold run. revert thread.
  induction ops as [|op ops IH]; intros thread Hkey; simpl; [exact Hkey|].
  by apply IH, step_key_nonempty.
Qed.

Lemma step_publish_keeps_url env thread i u :
  u ≠ "" -> urlOf thread i = Some u -> urlOf (step thread (Publish env)) i = Some u.
Proof.
  intros Hu Hi.
  destruct (step_publish env thread) as [->|[_ ->]]; [exact Hi|].
  unfold urlOf. simpl. apply publishedURLs_keeps; [done|].
  by rewrite <- urlOf_stored.
Qed.

End Metadata.

(** C2 (as amended). [fileURLs] is monotone under publishing: along every
    sequence of publish calls, whatever the messages and attachments each call
    finds, an attachment id mapped to a non-empty link stays mapped to that
    link in every later stored metadata. An unpublish whose request resolves
    stores [{ shared: false, key }], which has no [fileURLs] left. *)
Theorem fileURLs_monotone_under_publish (envs : list Env) (thread : Thread) (i u : string) :
  u ≠ "" ->
  urlOf thread i = Some u ->
  urlOf (run (map Publish envs) thread) i = Some u
  ∧ ∀ env : Env,
      is_Some (postStaticAsset env (keyOf thread) UnsharedJSON) ->
      ∀ j : string, urlOf (run [Unpublish env] thread) j = None.
Proof.
  intros Hu Hi. split.
  - unfold run. revert thread Hi.
    induction envs as [|env envs IH]; intros thread Hi; simpl; [exact Hi|].
    apply IH. by apply step_publish_keeps_url.
  - intros env [link Hpost] j. unfold run. simpl.
    rewrite step_unpublish, Hpost. reflexivity.
Qed.

(** C4. Starting from stored metadata whose key is absent or non-empty (as
    it then stays along every run): a publish leaves the key as it is, or
    assigns [`${thread.id}-${Date.now()}`] when there was none; once the key
    is [k], it is [k] after every sequence of publish and unpublish calls; the
    metadata an unpublish queues has [shared = false] and the key from before
    the call; and a publish after that unpublish posts the snapshot to the
    same key. *)
Theorem key_assigned_once (thread : Thread) (env env' : Env) :
  keyOf thread ≠ Some "" ->
  (keyOf (step thread (Publish env)) = keyOf thread
   ∨ (keyOf thread = None
      ∧ keyOf (step thread (Publish env))
        = Some (thread_id thread +:+ "-" +:+ pretty (now env))))
  ∧ (∀ (k : string) (ops : list Op),
       keyOf thread = Some k -> keyOf (run ops thread) = Some k)
  ∧ (∀ ops : list Op, keyOf (run ops thread) ≠ Some "")
  ∧ (∀ task : Task,
       In (QueueTask task) (fst (unsyncThread env thread)) ->
       shared (value task) = Some false ∧ key (value task) = keyOf thread)
  ∧ (is_Some (postStaticAsset env (keyOf thread) UnsharedJSON) ->
     isShared (step thread (Unpublish env)) = false
     ∧ keyOf (step thread (Unpublish env)) = keyOf thread
     ∧ ∀ k : string,
         keyOf thread = Some k ->
         ∃ doc result rest,
           fst (syncThreadToWeb env' (step thread (Unpublish env)))
           = loopTrace env' (rev (pendingFiles env' (step thread (Unpublish env))))
               ++ PostStaticAsset (Some k) (ThreadJSON doc) result :: rest).
Proof.
  intros Hkey.
  assert (Hne : ∀ k, keyOf thread = Some k -> k ≠ "") by (intros k Hk ->; by apply Hkey).
  split; [|split; [|split; [|split]]].
  - destruct (step_publish env thread) as [->|[_ ->]]; [by left|].
    destruct (keyOf thread) as [k|] eqn:Hk.
    + left. unfold keyOf. simpl. f_equal. unfold publishedKey.
      apply keyFor_present; [exact Hk|by apply Hne].
    + right. split; [reflexivity|]. unfold keyOf. simpl. f_equal.
      by apply keyFor_absent.
  - intros k ops Hk. apply run_keeps_key; [by apply Hne|exact Hk].
  - intros ops. by apply run_key_nonempty.
  - intros task. rewrite unsyncThread_spec.
    destruct (postStaticAsset env _ _) as [link|]; simpl.
    + intros [Heq|[Heq|[]]]; [discriminate|]. injection Heq as <-. done.
    + intros [Heq|[]]. discriminate.
  - intros [link Hpost]. rewrite step_unpublish, Hpost.
    split; [reflexivity|]. split; [reflexivity|].
    intros k Hk.
    set (thread' := withMetadata thread (unsharedMetadata thread)).
    assert (Hnew : ¬ upToDate env' thread') by (unfold upToDate; simpl; discriminate).
    rewrite (syncThreadToWeb_publish _ _ Hnew). cbv zeta.
    assert (Hk' : publishedKey env' thread' = k).
    { unfold publishedKey. apply keyFor_present; [exact Hk|by apply Hne]. }
    rewrite Hk'.
    destruct (postStaticAsset env' _ _) as [link'|]; simpl; eauto.
Qed.

(** * Attachments that cannot be read *)

Section Assets.

Implicit Types (env : Env) (thread : Thread) (file : File).

Lemma stepTrace_uploaded env file link :
  linkOf env file = Some link ->
  ∃ data,
    stepTrace env file
    = [ PostStaticAsset (Some (file_id file +:+ "/" +:+ displayName file))
          (OctetStream data) (Some link) ].
Proof.
  unfold linkOf, stepTrace, uploadFile, readFileAsync, postAsync.
  destruct (readFile env (pathForFile env file)) as [data|]; [|discriminate].
  simpl. destruct (length data =? 0)%nat; [discriminate|].
  intros ->. by exists data.
Qed.

Lemma stepTrace_missing env file :
  readFile env (pathForFile env file) = Some [] ->
  linkOf env file = None
  ∧ stepTrace env file
    = [ ConsoleLog (displayName file) (FileNotOnDisk (pathForFile env file)) ].
Proof.
  unfold linkOf, stepTrace, uploadFile, readFileAsync.
  intros ->. split; reflexivity.
Qed.

Lemma pendingFiles_first_publish env thread :
  storedURLs thread = ∅ ->
  pendingFiles env thread = flat_map files (visibleMessages env thread).
Proof.
  intros Hempty. unfold pendingFiles, toUploadOf. rewrite Hempty.
  induction (flat_map files (visibleMessages env thread)) as [|file l IH];
    simpl; [reflexivity|].
  rewrite lookup_empty. simpl. by rewrite IH.
Qed.

End Assets.

(** C9. A thread published for the first time has three attachments with
    distinct ids; one of them reads as zero bytes, the other two are read and
    uploaded. The publish makes exactly two upload requests, both resolved,
    ends with a [fileURLs] of exactly the two links, posts the snapshot
    carrying that map and, when that request resolves, queues metadata
    carrying it too. *)
Theorem partial_asset_failure (env : Env) (thread : Thread) (f1 f2 f3 bad : File) :
  ¬ upToDate env thread ->
  storedURLs thread = ∅ ->
  flat_map files (visibleMessages env thread) = [f1; f2; f3] ->
  NoDup [file_id f1; file_id f2; file_id f3] ->
  In bad [f1; f2; f3] ->
  readFile env (pathForFile env bad) = Some [] ->
  (∀ f : File, In f [f1; f2; f3] -> file_id f ≠ file_id bad -> is_Some (linkOf env f)) ->
  let trace := fst (syncThreadToWeb env thread) in
  let urls := publishedURLs env thread in
  (∀ f : File, In f [f1; f2; f3] ->
     urls !! file_id f = if decide (file_id f = file_id bad) then None else linkOf env f)
  ∧ size urls = 2%nat
  ∧ length (List.filter isUpload trace) = 2%nat
  ∧ length (List.filter isResolvedUpload trace) = 2%nat
  ∧ ∃ result rest,
      trace = loopTrace env [f3; f2; f1]
                ++ PostStaticAsset (Some (publishedKey env thread))
                     (ThreadJSON (documentOf env thread urls (visibleMessages env thread)))
                     result :: rest
      ∧ (is_Some result ->
         rest = [ QueueTask {| model := thread; value := publishedMetadata env thread |} ]
         ∧ fileURLs (publishedMetadata env thread) = Some urls).
Proof.
  intros Hnew Hempty Hfiles Hnodup Hbad Hzero Hgood trace urls.
  assert (Hpending : pendingFiles env thread = [f1; f2; f3])
    by (by rewrite pendingFiles_first_publish).
  apply NoDup_cons in Hnodup as [Hn1 Hnodup].
  apply NoDup_cons in Hnodup as [Hn2 _].
  assert (H12 : file_id f1 ≠ file_id f2) by (intros E; apply Hn1; rewrite E; by left).
  assert (H13 : file_id f1 ≠ file_id f3)
    by (intros E; apply Hn1; rewrite E; right; by left).
  assert (H23 : file_id f2 ≠ file_id f3) by (intros E; apply Hn2; rewrite E; by left).
  destruct (stepTrace_missing _ _ Hzero) as [Hnolink Hlog].
  assert (Hurls : urls = uploadedURLs env [f3; f2; f1] ∅).
  { subst urls. unfold publishedURLs. by rewrite Hpending, Hempty. }
  assert (Htrace : ∃ result rest,
            trace = loopTrace env [f3; f2; f1]
                      ++ PostStaticAsset (Some (publishedKey env thread))
                           (ThreadJSON (documentOf env thread urls
                                          (visibleMessages env thread)))
                           result :: rest
            ∧ (is_Some result ->
               rest = [ QueueTask {| model := thread;
                                     value := publishedMetadata env thread |} ]
               ∧ fileURLs (publishedMetadata env thread) = Some urls)
            ∧ List.filter isUpload rest = []
            ∧ List.filter isResolvedUpload rest = []).
  { subst trace. rewrite (syncThreadToWeb_publish _ _ Hnew). cbv zeta.
    rewrite Hpending. simpl rev. fold urls. unfold publishedDocument. fold urls.
    destruct (postStaticAsset env _ _) as [link|]; simpl.
    - eexists _, _. split; [reflexivity|]. split; [|done]. by intros _.
    - eexists _, _. split; [reflexivity|]. split; [|done]. by intros [? ?]. }
  destruct Htrace as (result & rest & Htrace & Hqueued & Hrest1 & Hrest2).
  assert (Hloop : loopTrace env [f3; f2; f1]
                  = stepTrace env f3 ++ stepTrace env f2 ++ stepTrace env f1)
    by (unfold loopTrace; simpl; by rewrite app_nil_r).
  assert (Hmap : urls = recordLink env (recordLink env (recordLink env ∅ f3) f2) f1)
    by (rewrite Hurls; reflexivity).
  assert (Hcount : ∀ p : Effect -> bool,
            length (List.filter p trace)
            = (length (List.filter p (stepTrace env f3))
               + length (List.filter p (stepTrace env f2))
               + length (List.filter p (stepTrace env f1))
               + length (List.filter p (PostStaticAsset (Some (publishedKey env thread))
                     (ThreadJSON (documentOf env thread urls (visibleMessages env thread)))
                     result :: rest)))%nat).
  { intros p. rewrite Htrace, Hloop, !List.filter_app, !length_app. lia. }
  assert (Hfacts :
    (∀ f : File, In f [f1; f2; f3] ->
       urls !! file_id f
       = if decide (file_id f = file_id bad) then None else linkOf env f)
    ∧ size urls = 2%nat
    ∧ (length (List.filter isUpload (stepTrace env f3))
       + length (List.filter isUpload (stepTrace env f2))
       + length (List.filter isUpload (stepTrace env f1)) = 2)%nat
    ∧ (length (List.filter isResolvedUpload (stepTrace env f3))
       + length (List.filter isResolvedUpload (stepTrace env f2))
       + length (List.filter isResolvedUpload (stepTrace env f1)) = 2)%nat).
  { rewrite Hmap. unfold recordLink.
    destruct Hbad as [<-|[<-|[<-|[]]]].
    - destruct (Hgood f2) as [l2 Hl2]; [simpl; tauto|congruence|].
      destruct (Hgood f3) as [l3 Hl3]; [simpl; tauto|congruence|].
      destruct (stepTrace_uploaded _ _ _ Hl2) as [d2 Ht2].
      destruct (stepTrace_uploaded _ _ _ Hl3) as [d3 Ht3].
      rewrite Hnolink, Hl2, Hl3, Hlog, Ht2, Ht3. simpl.
      split; [|split; [|done]].
      + intros f [<-|[<-|[<-|[]]]]; case_decide; simplify_map_eq; congruence.
      + rewrite !map_size_insert_None, map_size_empty; by simplify_map_eq.
    - destruct (Hgood f1) as [l1 Hl1]; [simpl; tauto|congruence|].
      destruct (Hgood f3) as [l3 Hl3]; [simpl; tauto|congruence|].
      destruct (stepTrace_uploaded _ _ _ Hl1) as [d1 Ht1].
      destruct (stepTrace_uploaded _ _ _ Hl3) as [d3 Ht3].
      rewrite Hnolink, Hl1, Hl3, Hlog, Ht1, Ht3. simpl.
      split; [|split; [|done]].
      + intros f [<-|[<-|[<-|[]]]]; case_decide; simplify_map_eq; congruence.
      + rewrite !map_size_insert_None, map_size_empty; by simplify_map_eq.
    - destruct (Hgood f1) as [l1 Hl1]; [simpl; tauto|congruence|].
      destruct (Hgood f2) as [l2 Hl2]; [simpl; tauto|congruence|].
      destruct (stepTrace_uploaded _ _ _ Hl1) as [d1 Ht1].
      destruct (stepTrace_uploaded _ _ _ Hl2) as [d2 Ht2].
      rewrite Hnolink, Hl1, Hl2, Hlog, Ht1, Ht2. simpl.
      split; [|split; [|done]].
      + intros f [<-|[<-|[<-|[]]]]; case_decide; simplify_map_eq; congruence.
      + rewrite !map_size_insert_None, map_size_empty; by simplify_map_eq. }
  destruct Hfacts as (Hlookup & Hsize & Hup & Hres).
  split; [exact Hlookup|]. split; [exact Hsize|].
  split; [|split].
  - rewrite Hcount, Hup. simpl. rewrite Hrest1. reflexivity.
  - rewrite Hcount, Hres. simpl. destruct result; simpl; rewrite Hrest2; reflexivity.
  - exists result, rest. split; [exact Htrace|exact Hqueued].
Qed.

(** * The fingerprint *)

Section Fingerprint.

Implicit Types (s a b : string) (l : list string) (z : Z).

Lemma pretty_N_char_no_bar (x : N) : Ascii.eqb (pretty_N_char x) "|" = false.
Proof. unfold pretty_N_char. by repeat case_match. Qed.

Lemma pretty_N_go_no_bar (x : N) s :
  hasBar s = false -> hasBar (pretty_N_go x s) = false.
Proof.
  revert s. induction (N.lt_wf_0 x) as [x _ IH]; intros s Hs.
  destruct (decide (x = 0)%N) as [->|Hx]; [by rewrite pretty_N_go_0|].
  rewrite pretty_N_go_step by lia.
  apply IH; [apply N.div_lt; lia|].
  simpl. by rewrite pretty_N_char_no_bar.
Qed.

Lemma pretty_N_go_nonempty (x : N) s : s ≠ "" -> pretty_N_go x s ≠ "".
Proof.
  revert s. induction (N.lt_wf_0 x) as [x _ IH]; intros s Hs.
  destruct (decide (x = 0)%N) as [->|Hx]; [by rewrite pretty_N_go_0|].
  rewrite pretty_N_go_step by lia.
  apply IH; [apply N.div_lt; lia|done].
Qed.

Lemma pretty_pos_no_bar (p : positive) : hasBar (pretty (N.pos p)) = false.
Proof.
  unfold pretty, pretty_N. rewrite decide_False by done.
  by apply pretty_N_go_no_bar.
Qed.

Lemma pretty_pos_nonempty (p : positive) : pretty (N.pos p) ≠ "".
Proof.
  unfold pretty, pretty_N. rewrite decide_False by done.
  rewrite pretty_N_go_step by lia. by apply pretty_N_go_nonempty.
Qed.

(** The decimal form of a version holds no ['|'] and is not empty. *)
Lemma pretty_Z_no_bar z : hasBar (pretty z) = false.
Proof.
  destruct z as [|p|p]; [reflexivity|apply pretty_pos_no_bar|].
  change (pretty (Z.neg p)) with ("-" +:+ pretty (N.pos p)).
  rewrite append_cons, append_nil. simpl. apply pretty_pos_no_bar.
Qed.

Lemma pretty_Z_nonempty z : pretty z ≠ "".
Proof.
  destruct z as [|p|p]; [done|apply pretty_pos_nonempty|done].
Qed.

Lemma concat_cons a l : String.concat "|" (a :: l) = a +:+ joinTail l.
Proof.
  destruct l as [|b l]; simpl; [|reflexivity].
  by rewrite append_empty.
Qed.

Lemma joinTail_shape l : joinTail l = "" ∨ ∃ r, joinTail l = String "|" r.
Proof. destruct l; simpl; eauto. Qed.

(** A piece without ['|'] ends where the next ['|'] or the end of the string
    is. *)
Lemma piece_inj a b ra rb :
  hasBar a = false -> hasBar b = false ->
  (ra = "" ∨ ∃ r, ra = String "|" r) ->
  (rb = "" ∨ ∃ r, rb = String "|" r) ->
  a +:+ ra = b +:+ rb -> a = b ∧ ra = rb.
Proof.
  revert b. induction a as [|c a IH]; intros [|c' b] Ha Hb Hra Hrb;
    rewrite ?append_cons, ?append_nil; simpl in *.
  - done.
  - intros ->. apply orb_false_iff in Hb as [Hc _].
    destruct Hra as [|[r ?]]; by simplify_eq.
  - intros <-. apply orb_false_iff in Ha as [Hc _].
    destruct Hrb as [|[r ?]]; by simplify_eq.
  - intros Heq. injection Heq as -> Heq.
    apply orb_false_iff in Ha as [_ Ha]. apply orb_false_iff in Hb as [_ Hb].
    destruct (IH b Ha Hb Hra Hrb Heq) as [-> ->]. done.
Qed.

Lemma join_inj l1 l2 :
  Forall (fun s => hasBar s = false ∧ s ≠ "") l1 ->
  Forall (fun s => hasBar s = false ∧ s ≠ "") l2 ->
  String.concat "|" l1 = String.concat "|" l2 -> l1 = l2.
Proof.
  revert l2. induction l1 as [|a l1 IH]; intros [|b l2] H1 H2.
  - done.
  - rewrite concat_cons. simpl. intros Heq.
    apply Forall_cons in H2 as [[_ Hb] _].
    destruct b; [done|rewrite append_cons in Heq; discriminate].
  - rewrite concat_cons. simpl. intros Heq.
    apply Forall_cons in H1 as [[_ Ha] _].
    destruct a; [done|rewrite append_cons in Heq; discriminate].
  - rewrite !concat_cons. intros Heq.
    apply Forall_cons in H1 as [[Ha _] H1]. apply Forall_cons in H2 as [[Hb _] H2].
    apply piece_inj in Heq as [-> Htail];
      [|done|done|apply joinTail_shape|apply joinTail_shape].
    f_equal. destruct l1 as [|a' l1], l2 as [|b' l2]; try done.
    apply IH; [done|done|]. unfold joinTail in Htail. by simplify_eq.
Qed.

Lemma versions_printable (A : list Message) :
  Forall (fun s => hasBar s = false ∧ s ≠ "") (map (fun m => pretty (version m)) A).
Proof.
  apply Forall_forall. intros s Hin. apply list_elem_of_In, in_map_iff in Hin.
  destruct Hin as (m & <- & _).
  split; [apply pretty_Z_no_bar|apply pretty_Z_nonempty].
Qed.

Lemma combinedVersionHashOf_inj (A B : list Message) :
  combinedVersionHashOf A = combinedVersionHashOf B <-> map version A = map version B.
Proof.
  unfold combinedVersionHashOf. split.
  - intros Heq. apply join_inj in Heq; [|apply versions_printable..].
    revert B Heq. induction A as [|a A IH]; intros [|b B] Heq; simpl in *;
      try discriminate; [reflexivity|].
    injection Heq as Hv Hrest. f_equal; [|by apply IH].
    by apply (inj pretty) in Hv.
  - intros Heq.
    replace (map (fun m => pretty (version m)) A) with (map pretty (map version A))
      by (by rewrite map_map).
    rewrite Heq. by rewrite map_map.
Qed.

End Fingerprint.

(** C8. The fingerprint is a function of the versions of the messages it is
    given, in their order: lists with the same (id, version) pairs in the same
    order have the same fingerprint; lists that differ in the version of one
    message have different fingerprints; more generally two fingerprints are
    equal exactly when the lists of versions are. The fingerprint a publish
    stores is the one of the thread's messages that are not hidden. *)
Theorem fingerprint_sensitivity :
  (∀ A B : list Message,
     map (fun m => (message_id m, version m)) A = map (fun m => (message_id m, version m)) B ->
     combinedVersionHashOf A = combinedVersionHashOf B)
  ∧ (∀ (before after : list Message) (a b : Message),
       version a ≠ version b ->
       combinedVersionHashOf (before ++ a :: after)
       ≠ combinedVersionHashOf (before ++ b :: after))
  ∧ (∀ A B : list Message,
       combinedVersionHashOf A = combinedVersionHashOf B <-> map version A = map version B)
  ∧ (∀ (env : Env) (thread : Thread) (task : Task),
       In (QueueTask task) (fst (syncThreadToWeb env thread)) ->
       combinedVersionHash (value task)
       = Some (combinedVersionHashOf
                 (List.filter (fun m => negb (isHidden m))
                              (findAllMessages env (thread_id thread))))).
Proof.
  split; [|split; [|split]].
  - intros A B Heq. apply combinedVersionHashOf_inj.
    replace (map version A) with (map snd (map (fun m => (message_id m, version m)) A))
      by (by rewrite map_map).
    rewrite Heq. by rewrite map_map.
  - intros before after a b Hne Heq. apply combinedVersionHashOf_inj in Heq.
    rewrite !map_app in Heq. apply app_inv_head in Heq. simpl in Heq. congruence.
  - apply combinedVersionHashOf_inj.
  - intros env thread task.
    destruct (decide (upToDate env thread)) as [Hold|Hnew].
    + rewrite (syncThreadToWeb_noop _ _ Hold). intros [].
    + rewrite (syncThreadToWeb_publish _ _ Hnew). cbv zeta.
      destruct (postStaticAsset env _ _) as [link|]; simpl.
      * intros Hin. apply in_app_or in Hin as [Hin|[Heq|[Heq|[]]]].
        -- by apply loopTrace_effects in Hin as [_ ?].
        -- discriminate.
        -- injection Heq as <-. reflexivity.
      * intros Hin. apply in_app_or in Hin as [Hin|[Heq|[]]].
        -- by apply loopTrace_effects in Hin as [_ ?].
        -- discriminate.
Qed.

(** * The scheduler *)

Section Scheduler.

Implicit Types (s : Scheduler) (thread th : Thread) (i : string).
Implicit Types (events window rest : list (Z * Thread)) (batch : list Thread).

Lemma notifyAll_snoc events e s :
  notifyAll (events ++ [e]) s = syncThreadToWebSoon e.1 e.2 (notifyAll events s).
Proof. unfold notifyAll. by rewrite fold_left_app. Qed.

(** A running timer is not started again. *)
Lemma notifyAll_timer events s due :
  soonTimer s = Some due -> soonTimer (notifyAll events s) = Some due.
Proof.
  unfold notifyAll. revert s.
  induction events as [|e events IH]; intros s Hs; simpl; [exact Hs|].
  apply IH. simpl. by rewrite Hs.
Qed.

Lemma eventLoop_window window rest s due :
  soonTimer s = Some due ->
  Forall (fun e => e.1 < due) window ->
  eventLoop (window ++ rest) s = eventLoop rest (notifyAll window s).
Proof.
  revert s. induction window as [|[t th] window IH]; intros s Hs Hbefore;
    simpl; [reflexivity|].
  apply Forall_cons in Hbefore as [Ht Hbefore]. simpl in Ht.
  rewrite Hs. destruct (Z.leb_spec due t) as [|_]; [lia|].
  apply IH; [|exact Hbefore]. simpl. by rewrite Hs.
Qed.

Lemma eventLoop_flush rest s due :
  soonTimer s = Some due ->
  Forall (fun e => due <= e.1) rest ->
  eventLoop rest s = (due, fst (onTimer s)) :: eventLoop rest idle.
Proof.
  intros Hs Hafter. destruct rest as [|[t th] rest]; simpl; rewrite Hs; [reflexivity|].
  apply Forall_cons in Hafter as [Ht _]. simpl in Ht.
  destruct (Z.leb_spec due t) as [_|]; [reflexivity|lia].
Qed.

Lemma lastNotified_snoc i events e :
  lastNotified i (events ++ [e])
  = if String.eqb (thread_id e.2) i then Some e.2 else lastNotified i events.
Proof.
  unfold lastNotified. rewrite rev_app_distr. simpl.
  by destruct (String.eqb (thread_id e.2) i).
Qed.

(** The buffer holds, for each entity, the thread of its last notification. *)
Lemma soon_notifyAll events s i :
  soon (notifyAll events s) !! i
  = match lastNotified i events with
    | Some th => Some th
    | None => soon s !! i
    end.
Proof.
  induction events as [|e events IH] using rev_ind; [reflexivity|].
  rewrite notifyAll_snoc, lastNotified_snoc. simpl.
  destruct (String.eqb_spec (thread_id e.2) i) as [<-|Hne].
  - by rewrite lookup_insert_eq.
  - by rewrite lookup_insert_ne.
Qed.

Lemma lastNotified_id i events th :
  lastNotified i events = Some th -> thread_id th = i.
Proof.
  unfold lastNotified.
  destruct (List.find _ (rev events)) as [e|] eqn:Hfind; [|discriminate].
  apply find_some in Hfind as [_ He]. intros [= <-].
  by apply String.eqb_eq.
Qed.

Lemma publishCount_cons i th batch :
  publishCount i (th :: batch)
  = ((if String.eqb (thread_id th) i then 1 else 0) + publishCount i batch)%nat.
Proof. unfold publishCount. simpl. by destruct (String.eqb (thread_id th) i). Qed.

Lemma publishCount_perm i batch batch' :
  batch ≡ₚ batch' -> publishCount i batch = publishCount i batch'.
Proof.
  induction 1 as [|x l l' _ IH|x y l|l l' l'' _ IH1 _ IH2].
  - reflexivity.
  - by rewrite !publishCount_cons, IH.
  - rewrite !publishCount_cons. lia.
  - by rewrite IH1.
Qed.

(** A buffer that files every thread under its own id hands each entity to
    the flush once if it is in the buffer, and not at all otherwise. *)
Lemma publishCount_values (m : gmap string Thread) i :
  (∀ k th, m !! k = Some th -> thread_id th = k) ->
  publishCount i (map_to_list m).*2
  = match m !! i with Some _ => 1%nat | None => 0%nat end.
Proof.
  induction m as [|k th m Hk IH] using map_ind; intros Hkeyed.
  - by rewrite map_to_list_empty, lookup_empty.
  - rewrite (publishCount_perm i _ ((k, th) :: map_to_list m).*2)
      by (by apply fmap_Permutation, map_to_list_insert).
    rewrite fmap_cons, publishCount_cons. cbn [snd].
    assert (Hth : thread_id th = k) by (apply Hkeyed; by rewrite lookup_insert_eq).
    rewrite IH.
    2:{ intros k' th' Hk'. apply Hkeyed.
        rewrite lookup_insert_ne; [done|]. intros <-. congruence. }
    rewrite Hth. destruct (String.eqb_spec k i) as [->|Hne].
    + by rewrite lookup_insert_eq, Hk.
    + rewrite lookup_insert_ne by done. by destruct (m !! i).
Qed.

Lemma soon_keyed events k th :
  soon (notifyAll events idle) !! k = Some th -> thread_id th = k.
Proof.
  rewrite soon_notifyAll.
  destruct (lastNotified k events) as [th'|] eqn:Hlast.
  - intros [= <-]. by apply lastNotified_id in Hlast.
  - simpl. by rewrite lookup_empty.
Qed.

Lemma notifyAll_same_entity i events s :
  (∀ e, In e events -> thread_id e.2 = i) ->
  soon s = ∅ ∨ (∃ th, soon s = {[ i := th ]}) ->
  soon (notifyAll events s) = ∅ ∨ (∃ th, soon (notifyAll events s) = {[ i := th ]}).
Proof.
  unfold notifyAll. revert s.
  induction events as [|e events IH]; intros s Hsame Hs; simpl; [exact Hs|].
  apply IH; [intros e' He'; apply Hsame; by right|].
  right. exists e.2. simpl. rewrite (Hsame e) by (by left).
  destruct Hs as [->|[th ->]]; [by rewrite insert_empty|by rewrite insert_singleton_eq].
Qed.

(** Notifications about one entity leave one thread in the buffer, the
    last one. *)
Lemma batch_same_entity i events e :
  (∀ e', In e' (events ++ [e]) -> thread_id e'.2 = i) ->
  fst (onTimer (notifyAll (events ++ [e]) idle)) = [e.2].
Proof.
  intros Hsame. unfold onTimer. cbn [fst].
  rewrite notifyAll_snoc. simpl.
  rewrite (Hsame e) by (apply in_or_app; right; by left).
  destruct (notifyAll_same_entity i events idle) as [->|[th ->]].
  - intros e' He'. apply Hsame, in_or_app. by left.
  - by left.
  - by rewrite insert_empty, map_to_list_singleton.
  - by rewrite insert_singleton_eq, map_to_list_singleton.
Qed.

End Scheduler.

(** C5. Notifications start at time [t0] from a scheduler at rest; [window]
    holds those that follow before [t0 + 5000] and [rest] those from
    [t0 + 5000] on. The timer started by the first notification fires once, at
    [t0 + 5000], and the scheduler handles [rest] from rest again, with a new
    timer. The batch of that flush publishes every entity at most once, and an
    entity notified in the window exactly once, with the thread of its last
    notification; when all notifications of the window are about one entity,
    the batch is that one thread. *)
Theorem debounce_coalesces (t0 : Z) (th0 : Thread) (window rest : list (Z * Thread))
    (i : string) :
  Forall (fun e => e.1 < t0 + DELAY) window ->
  Forall (fun e => t0 + DELAY <= e.1) rest ->
  let events := (t0, th0) :: window in
  let batch := fst (onTimer (notifyAll events idle)) in
  eventLoop (events ++ rest) idle = (t0 + DELAY, batch) :: eventLoop rest idle
  ∧ snd (onTimer (notifyAll events idle)) = idle
  ∧ (publishCount i batch <= 1)%nat
  ∧ (∀ th : Thread,
       lastNotified i events = Some th -> In th batch ∧ publishCount i batch = 1%nat)
  ∧ (lastNotified i events = None -> publishCount i batch = 0%nat)
  ∧ (∀ e : Z * Thread,
       last events = Some e ->
       (∀ e' : Z * Thread, In e' events -> thread_id e'.2 = i) ->
       batch = [e.2]).
Proof.
  intros Hbefore Hafter events batch.
  assert (Hcount : publishCount i batch
                   = match lastNotified i events with Some _ => 1%nat | None => 0%nat end).
  { subst batch. unfold onTimer. cbn [fst].
    rewrite publishCount_values by apply soon_keyed.
    rewrite soon_notifyAll. simpl. rewrite lookup_empty.
    by destruct (lastNotified i events). }
  split; [|split; [|split; [|split; [|split]]]].
  - subst events. simpl.
    rewrite (eventLoop_window window rest _ (t0 + DELAY)) by done.
    rewrite (eventLoop_flush rest _ (t0 + DELAY)); [reflexivity| |exact Hafter].
    by apply notifyAll_timer.
  - reflexivity.
  - rewrite Hcount. destruct (lastNotified i events); lia.
  - intros th Hlast. rewrite Hcount, Hlast. split; [|reflexivity].
    subst batch. unfold onTimer. cbn [fst].
    apply list_elem_of_In, list_elem_of_fmap. exists (i, th). split; [reflexivity|].
    apply elem_of_map_to_list. rewrite soon_notifyAll. by rewrite Hlast.
  - intros Hlast. by rewrite Hcount, Hlast.
  - intros e Hlast Hsame. apply last_Some in Hlast as [front Hfront].
    subst batch. rewrite Hfront in *. by apply (batch_same_entity i).
Qed.

(** * The theorems at the sample data *)

Lemma publish_twice_writes_once_witness :
  let trace := fst (syncThreadToWeb sampleEnv sampleThread) in
  syncThreadToWeb sampleEnv sampleThread = (trace, Resolved tt)
  ∧ syncThreadToWeb sampleEnv (persist trace sampleThread) = ([], Resolved tt)
  ∧ snapshotWrites (trace ++ fst (syncThreadToWeb sampleEnv (persist trace sampleThread)))
    = 1%nat.
Proof.
  intros trace.
  assert (Hfirst : syncThreadToWeb sampleEnv sampleThread = (trace, Resolved tt))
    by (vm_compute; reflexivity).
  destruct (publish_twice_writes_once sampleEnv sampleEnv sampleThread trace
              eq_refl Hfirst) as (_ & Hsecond & Hcount).
  split; [exact Hfirst|]. split; [exact Hsecond|].
  rewrite Hcount. reflexivity.
Defined.

Lemma snapshot_failure_aborts_witness :
  let call := syncThreadToWeb rejectingEnv sampleThread in
  In (PostStaticAsset (Some "t1-1234")
        (ThreadJSON (publishedDocument rejectingEnv sampleThread)) None) (fst call)
  ∧ List.filter isQueueTask (fst call) = []
  ∧ persist (fst call) sampleThread = sampleThread.
Proof.
  intros call.
  assert (Hfail : In (PostStaticAsset (Some "t1-1234")
                        (ThreadJSON (publishedDocument rejectingEnv sampleThread)) None)
                     (fst call)).
  { vm_compute. right. right. right. left. reflexivity. }
  destruct (snapshot_failure_aborts rejectingEnv sampleThread _ _ Hfail)
    as (_ & Hqueue & _ & Hsame & _).
  split; [exact Hfail|]. split; [exact Hqueue|exact Hsame].
Defined.

Lemma fileURLs_monotone_under_publish_witness :
  urlOf sharedThread "f1" = Some "https://shared.test/f1/a.txt"
  ∧ urlOf (run (map Publish [laterEnv; sampleEnv]) sharedThread) "f1"
    = Some "https://shared.test/f1/a.txt".
Proof.
  assert (Hurl : urlOf sharedThread "f1" = Some "https://shared.test/f1/a.txt")
    by (vm_compute; reflexivity).
  split; [exact Hurl|].
  apply (fileURLs_monotone_under_publish [laterEnv; sampleEnv] sharedThread "f1"
           "https://shared.test/f1/a.txt"); [discriminate|exact Hurl].
Defined.

(** C2 (as stated) fails at an unpublish: [sharedThread] maps the attachment
    [f1] to its link; the metadata stored by an unpublish has no link for it,
    and neither has the metadata stored when the thread is then shared again
    without that attachment. *)
Lemma unpublish_drops_fileURLs :
  urlOf sharedThread "f1" = Some "https://shared.test/f1/a.txt"
  ∧ urlOf (run [Unpublish sampleEnv] sharedThread) "f1" = None
  ∧ urlOf (run [Unpublish sampleEnv; Publish laterEnv] sharedThread) "f1" = None.
Proof. repeat split; vm_compute; reflexivity. Qed.

Lemma key_assigned_once_witness :
  keyOf sharedThread = Some "t1-1234"
  ∧ keyOf (run [Publish laterEnv; Unpublish sampleEnv; Publish sampleEnv] sharedThread)
    = Some "t1-1234".
Proof.
  assert (Hkey : keyOf sharedThread = Some "t1-1234") by (vm_compute; reflexivity).
  split; [exact Hkey|].
  assert (Hne : keyOf sharedThread ≠ Some "") by (rewrite Hkey; discriminate).
  destruct (key_assigned_once sharedThread sampleEnv laterEnv Hne) as (_ & Hrun & _).
  by apply Hrun.
Defined.

Lemma debounce_coalesces_witness :
  let later := withMetadata sampleThread emptyMetadata in
  eventLoop [(0, sampleThread); (100, sampleThread); (900, later); (6000, sampleThread)] idle
  = [(5000, [later]); (11000, [sampleThread])].
Proof.
  intros later.
  destruct (debounce_coalesces 0 sampleThread [(100, sampleThread); (900, later)]
              [(6000, sampleThread)] "t1") as (Hloop & _).
  - repeat constructor; unfold DELAY; simpl; lia.
  - repeat constructor; unfold DELAY; simpl; lia.
  - simpl app in Hloop. rewrite Hloop. vm_compute. reflexivity.
Defined.

Lemma partial_asset_failure_witness :
  size (publishedURLs sampleEnv sampleThread) = 2%nat
  ∧ length (List.filter isUpload (fst (syncThreadToWeb sampleEnv sampleThread))) = 2%nat.
Proof.
  destruct (partial_asset_failure sampleEnv sampleThread fileA fileB fileC fileB)
    as (_ & Hsize & Hups & _).
  - unfold upToDate. simpl. discriminate.
  - reflexivity.
  - reflexivity.
  - apply (bool_decide_unpack _). vm_compute. exact I.
  - right. by left.
  - reflexivity.
  - intros f [<-|[<-|[<-|[]]]] Hne; [|contradiction|]; eexists; vm_compute; reflexivity.
  - split; [exact Hsize|exact Hups].
Defined.

Lemma fingerprint_sensitivity_witness :
  combinedVersionHashOf sampleMessages
  ≠ combinedVersionHashOf (findAllMessages laterEnv "t1").
Proof.
  apply (proj1 (proj2 fingerprint_sensitivity) []
           [ {| message_id := "m2"; version := 3; body := "world"; isHidden := false;
                files := [fileC] |} ]).
  simpl. discriminate.
Defined.

(** * More on the resolver *)

Section ResolverMore.

Implicit Types (t : Thread) (s : string) (store : list Thread).
Implicit Types (params : MailspringLinkParams) (eps : Z).

Lemma find_first {A : Type} (f : A -> bool) (l : list A) :
  match List.find f l with
  | Some x => ∃ l1 l2, l = l1 ++ x :: l2 ∧ f x = true ∧ ∀ y, In y l1 -> f y = false
  | None => ∀ y, In y l -> f y = false
  end.
Proof.
  induction l as [|a l IH]; simpl; [by intros y []|].
  destruct (f a) eqn:Hfa.
  - exists [], l. split; [reflexivity|]. split; [exact Hfa|]. by intros y [].
  - destruct (List.find f l) as [x|].
    + destruct IH as (l1 & l2 & -> & Hx & Hl1).
      exists (a :: l1), l2. split; [reflexivity|]. split; [exact Hx|].
      intros y [<-|Hy]; [exact Hfa|by apply Hl1].
    + intros y [<-|Hy]; [exact Hfa|by apply IH].
Qed.

Lemma find_weaken {A : Type} (f g : A -> bool) (l : list A) :
  (∀ x, f x = true -> g x = true) ->
  is_Some (List.find f l) -> is_Some (List.find g l).
Proof.
  intros Hfg. induction l as [|a l IH]; simpl; [done|].
  destruct (f a) eqn:Hfa.
  - by rewrite (Hfg a Hfa).
  - destruct (g a); [by eexists|exact IH].
Qed.

Lemma evaluate_query s clause t :
  evaluate (And [SubjectEqual s; clause]) t
  = String.eqb (subject t) s && evaluate clause t.
Proof. simpl. by rewrite andb_true_r. Qed.

(** A wider tolerance accepts every thread a narrower one accepts. *)
Lemma dateClause_widens params eps eps' t :
  eps <= eps' ->
  evaluate (dateClauseOf params eps) t = true ->
  evaluate (dateClauseOf params eps') t = true.
Proof.
  intros Hle. unfold dateClauseOf.
  destruct (truthyNum (date params)) eqn:Htruthy.
  - destruct (date params) as [[|d|negative]|]; try discriminate; simpl.
    + rewrite !andb_true_r, !andb_true_iff, !Z.ltb_lt. lia.
    + done.
  - destruct (lastDate params) as [[|l|negative]|]; simpl; try discriminate.
    + rewrite !andb_true_r, !orb_false_r, !orb_true_iff, !andb_true_iff, !Z.ltb_lt. lia.
    + done.
Qed.

(** A tolerance of zero or less leaves no room between the two bounds. *)
Lemma dateClause_empty params eps t :
  eps <= 0 -> evaluate (dateClauseOf params eps) t = false.
Proof.
  intros Hle. unfold dateClauseOf.
  destruct (truthyNum (date params)) eqn:Htruthy.
  - destruct (date params) as [[|d|negative]|]; try discriminate; simpl.
    + rewrite andb_true_r. apply andb_false_iff.
      destruct (Z.ltb_spec (firstMessageTimestamp t) (d + eps)); [right|by left].
      apply Z.ltb_ge. lia.
    + by destruct negative.
  - destruct (lastDate params) as [[|l|negative]|]; simpl; try reflexivity.
    + rewrite !andb_true_r, !orb_false_r. apply orb_false_iff.
      split; apply andb_false_iff.
      * destruct (Z.ltb_spec (lastMessageSentTimestamp t) (l + eps)); [right|by left].
        apply Z.ltb_ge. lia.
      * destruct (Z.ltb_spec (lastMessageReceivedTimestamp t) (l + eps)); [right|by left].
        apply Z.ltb_ge. lia.
    + by destruct negative.
Qed.

End ResolverMore.

Lemma findCorrespondingThread_first (store : list Thread) (params : MailspringLinkParams) (eps : Z) :
  match _findCorrespondingThread store params eps with
  | Some t =>
      ∃ before after,
        store = before ++ t :: after
        ∧ subject t = link_subject params
        ∧ evaluate (dateClauseOf params eps) t = true
        ∧ ∀ t', In t' before ->
            subject t' ≠ link_subject params
            ∨ evaluate (dateClauseOf params eps) t' = false
  | None =>
      ∀ t', In t' store ->
        subject t' ≠ link_subject params ∨ evaluate (dateClauseOf params eps) t' = false
  end.
Proof.
  assert (Hfails : ∀ t' : Thread,
            evaluate (And [SubjectEqual (link_subject params); dateClauseOf params eps]) t'
            = false ->
            subject t' ≠ link_subject params
            ∨ evaluate (dateClauseOf params eps) t' = false).
  { intros t'. rewrite evaluate_query. intros [Hs|Hc]%andb_false_iff; [left|by right].
    by apply String.eqb_neq. }
  unfold _findCorrespondingThread, findBy.
  pose proof (find_first
    (evaluate (And [SubjectEqual (link_subject params); dateClauseOf params eps])) store)
    as Hfind.
  destruct (List.find _ store) as [t|].
  - destruct Hfind as (before & after & -> & Ht & Hbefore).
    rewrite evaluate_query in Ht. apply andb_true_iff in Ht as [Hs Hc].
    exists before, after. split; [reflexivity|]. split; [by apply String.eqb_eq|].
    split; [exact Hc|]. intros t' Hin. by apply Hfails, Hbefore.
  - intros t' Hin. by apply Hfails, Hfind.
Qed.


(** X2. Opening a link pops out only a stored thread whose subject is the
    link's, and the error it reports otherwise names the link's subject. *)
Theorem open_link_outcome (store : list Thread) (q : QueryParams) :
  match _onOpenThreadFromWeb store q with
  | PopoutThread t => In t store ∧ subject t = q_subject q
  | ThreadNotFound s =>
      s = q_subject q
      ∧ _findCorrespondingThread store (_parseOpenThreadUrl q) DATE_EPSILON = None
  end.
Proof.
  unfold _onOpenThreadFromWeb.
  pose proof (findCorrespondingThread_first store (_parseOpenThreadUrl q) DATE_EPSILON)
    as Hres.
  destruct (_findCorrespondingThread store (_parseOpenThreadUrl q) DATE_EPSILON) as [t|].
  - destruct Hres as (before & after & -> & Hs & _). split; [|exact Hs].
    apply in_or_app. right. by left.
  - split; reflexivity.
Qed.

(** X3. A [date] field that is empty, that does not start with a number, or
    that reads as zero is ignored: the link is opened as if the field were
    absent. *)
Theorem falsy_date_is_ignored (store : list Thread) (s ds : string) (ql : option string) :
  ds = "" ∨ parseInt ds = NaN ∨ parseInt ds = Num 0 ->
  _onOpenThreadFromWeb store {| q_subject := s; q_date := Some ds; q_lastDate := ql |}
  = _onOpenThreadFromWeb store {| q_subject := s; q_date := None; q_lastDate := ql |}.
Proof.
  intros Hds. unfold _onOpenThreadFromWeb, _findCorrespondingThread, dateClauseOf.
  unfold _parseOpenThreadUrl. cbn [q_date q_subject q_lastDate link_subject date lastDate].
  destruct Hds as [->|Hds]; [reflexivity|].
  destruct (truthyStr (Some ds)); [|reflexivity].
  cbn [fmap option_fmap option_map truthyNum].
  by destruct Hds as [->| ->].
Qed.

Lemma falsy_date_is_ignored_witness :
  let t := {| thread_id := "t1"; subject := "X"; firstMessageTimestamp := 100;
              lastMessageSentTimestamp := 500; lastMessageReceivedTimestamp := 2000;
              pluginMetadata := None |} in
  _onOpenThreadFromWeb [t]
    {| q_subject := "X"; q_date := Some "soon"; q_lastDate := Some "520" |}
  = PopoutThread t.
Proof.
  intros t.
  rewrite (falsy_date_is_ignored [t] "X" "soon" (Some "520")); [reflexivity|].
  right. left. reflexivity.
Defined.

(** X4. The tolerance: with a tolerance of zero or less the resolver finds
    nothing, not even a thread at the exact time; and when it finds a thread
    with some tolerance it finds one with every larger tolerance. *)
Theorem tolerance_widens (store : list Thread) (params : MailspringLinkParams) (eps eps' : Z) :
  eps <= eps' ->
  (eps' <= 0 -> _findCorrespondingThread store params eps' = None)
  ∧ (is_Some (_findCorrespondingThread store params eps) ->
     is_Some (_findCorrespondingThread store params eps')).
Proof.
  intros Hle. unfold _findCorrespondingThread, findBy. split.
  - intros Hneg. apply find_none_all. intros t. rewrite evaluate_query.
    rewrite dateClause_empty by done. apply andb_false_r.
  - apply find_weaken. intros t. rewrite !evaluate_query, !andb_true_iff.
    intros [Hs Hc]. split; [exact Hs|]. by apply (dateClause_widens params eps).
Qed.

Lemma tolerance_widens_witness :
  _findCorrespondingThread [sampleThread] (byDate "Hi" 1000) 0 = None
  ∧ is_Some (_findCorrespondingThread [sampleThread] (byDate "Hi" 1030) 3600).
Proof.
  split.
  - apply (tolerance_widens [sampleThread] (byDate "Hi" 1000) 0 0); lia.
  - apply (tolerance_widens [sampleThread] (byDate "Hi" 1030) 60 3600); [lia|].
    by eexists.
Defined.

(** * Reading back a printed number *)

Section ParseInt.

Implicit Types (s : string) (x : N) (z : Z).

Lemma digit_char_value x :
  (x < 10)%N ->
  isDigit (pretty_N_char x) = true
  ∧ Z.of_nat (nat_of_ascii (pretty_N_char x)) - 48 = Z.of_N x
  ∧ ∀ s, skipSpace (String (pretty_N_char x) s) = String (pretty_N_char x) s.
Proof.
  intros Hx.
  assert (x = 0 ∨ x = 1 ∨ x = 2 ∨ x = 3 ∨ x = 4 ∨ x = 5 ∨ x = 6 ∨ x = 7 ∨ x = 8 ∨ x = 9)%N
    as Hcases by lia.
  destruct Hcases as [->|[->|[->|[->|[->|[->|[->|[->|[->| ->]]]]]]]]]; done.
Qed.

(** Reading the digits printed for [x] in front of [s] leaves [x] in the
    accumulator. *)
Lemma parseDigits_pretty_N_go x s :
  parseDigits (pretty_N_go x s) None
  = parseDigits s (if decide (x = 0)%N then None else Some (Z.of_N x)).
Proof.
  revert s. induction (N.lt_wf_0 x) as [x _ IH]; intros s.
  destruct (decide (x = 0)%N) as [->|Hx]; [by rewrite pretty_N_go_0|].
  rewrite pretty_N_go_step by lia.
  rewrite IH by (apply N.div_lt; lia).
  destruct (digit_char_value (x `mod` 10)) as (Hdigit & Hvalue & _);
    [by apply N.mod_lt|].
  cbn [parseDigits]. rewrite Hdigit, Hvalue. f_equal. f_equal.
  pose proof (N.div_mod x 10 ltac:(done)) as Hdm.
  apply (f_equal Z.of_N) in Hdm. rewrite N2Z.inj_add, N2Z.inj_mul in Hdm.
  destruct (decide (x `div` 10 = 0)%N) as [Hq|Hq]; simpl;
    [rewrite Hq in Hdm|]; rewrite Hdm; reflexivity.
Qed.

Lemma pretty_N_go_first x s :
  (0 < x)%N -> ∃ d rest, (d < 10)%N ∧ pretty_N_go x s = String (pretty_N_char d) rest.
Proof.
  revert s. induction (N.lt_wf_0 x) as [x _ IH]; intros s Hx.
  rewrite pretty_N_go_step by done.
  destruct (decide (x `div` 10 = 0)%N) as [->|Hq].
  - rewrite pretty_N_go_0. exists (x `mod` 10)%N, s. split; [by apply N.mod_lt|done].
  - apply IH; [apply N.div_lt; lia|by apply N.neq_0_lt_0].
Qed.

(** A string that starts with a digit is read from its first byte. *)
Lemma parseInt_unsigned (d : N) s :
  (d < 10)%N ->
  parseInt (String (pretty_N_char d) s)
  = match parseDigits (String (pretty_N_char d) s) None with
    | Some z => toDouble z
    | None => NaN
    end.
Proof.
  intros Hd.
  assert (d = 0 ∨ d = 1 ∨ d = 2 ∨ d = 3 ∨ d = 4 ∨ d = 5 ∨ d = 6 ∨ d = 7 ∨ d = 8 ∨ d = 9)%N
    as Hcases by lia.
  destruct Hcases as [->|[->|[->|[->|[->|[->|[->|[->|[->| ->]]]]]]]]]; reflexivity.
Qed.

Lemma parseInt_signed s :
  parseInt (String "-" s)
  = match parseDigits s None with
    | Some z => toDouble (- z)
    | None => NaN
    end.
Proof. reflexivity. Qed.

Lemma pretty_N_go_append x s : pretty_N_go x s = pretty_N_go x "" +:+ s.
Proof.
  revert s. induction (N.lt_wf_0 x) as [x _ IH]; intros s.
  destruct (decide (x = 0)%N) as [->|Hx]; [by rewrite !pretty_N_go_0|].
  rewrite !(pretty_N_go_step x) by lia.
  rewrite (IH (x `div` 10)%N) by (apply N.div_lt; lia).
  rewrite (IH (x `div` 10)%N ltac:(apply N.div_lt; lia) (String _ "")).
  generalize (pretty_N_go (x `div` 10) ""). intros a.
  induction a as [|ch a IHa]; [reflexivity|]. by rewrite !append_cons, IHa.
Qed.

(** What follows the digits is not read. *)
Lemma parseInt_pos_then (p : positive) s :
  (∀ c s', s = String c s' -> isDigit c = false) ->
  parseInt (pretty (N.pos p) +:+ s) = toDouble (Z.pos p).
Proof.
  intros Hs. unfold pretty, pretty_N. rewrite decide_False by done.
  rewrite <- pretty_N_go_append.
  destruct (pretty_N_go_first (N.pos p) s) as (d & tail & Hd & Hfirst); [lia|].
  rewrite Hfirst, parseInt_unsigned by done. rewrite <- Hfirst.
  rewrite parseDigits_pretty_N_go, decide_False by done.
  destruct s as [|c s']; [reflexivity|].
  cbn [parseDigits]. by rewrite (Hs c s' eq_refl).
Qed.

Lemma parseInt_pretty_then z s :
  (∀ c s', s = String c s' -> isDigit c = false) ->
  parseInt (pretty z +:+ s) = toDouble z.
Proof.
  intros Hs. destruct z as [|p|p].
  - change (pretty 0) with "0". rewrite append_cons, append_nil.
    rewrite (parseInt_unsigned 0) by done.
    destruct s as [|c s']; [reflexivity|].
    change (pretty_N_char 0) with "0"%char.
    cbn [parseDigits]. change (isDigit "0") with true. cbv iota.
    cbn [parseDigits]. by rewrite (Hs c s' eq_refl).
  - by apply parseInt_pos_then.
  - change (pretty (Z.neg p)) with (String "-" (pretty (N.pos p))).
    rewrite append_cons, parseInt_signed.
    unfold pretty, pretty_N. rewrite decide_False by done.
    rewrite <- pretty_N_go_append.
    rewrite parseDigits_pretty_N_go, decide_False by done.
    destruct s as [|c s']; [reflexivity|].
    cbn [parseDigits]. by rewrite (Hs c s' eq_refl).
Qed.

Lemma parseInt_pretty z : parseInt (pretty z) = toDouble z.
Proof.
  rewrite <- (append_empty (pretty z)). apply parseInt_pretty_then. discriminate.
Qed.

(** Up to [2^53] the nearest double is the integer itself. *)
Lemma toDouble_exact z : Z.abs z <= twoTo53 -> toDouble z = Num z.
Proof.
  intros Hz. unfold toDouble.
  assert (Hround : roundMagnitude (Z.abs z) = Z.abs z).
  { unfold roundMagnitude. destruct (Z.ltb_spec (Z.abs z) twoTo53) as [|Hge]; [reflexivity|].
    assert (Z.abs z = twoTo53) as -> by lia. reflexivity. }
  rewrite Hround.
  destruct (Z.leb_spec (2 ^ 1024) (Z.abs z)) as [Hbig|_].
  - exfalso. assert (twoTo53 < 2 ^ 1024) by reflexivity. lia.
  - f_equal. lia.
Qed.

(** The blanks [parseInt] skips, byte by byte. *)
Lemma skipSpace_blank (blank : string) s :
  In blank strWhiteSpace -> skipSpace (blank +:+ s) = skipSpace s.
Proof.
  unfold strWhiteSpace. intros Hin.
  repeat (destruct Hin as [<-|Hin]; [reflexivity|]). destruct Hin.
Qed.

Lemma parseInt_blank (blank : string) s :
  In blank strWhiteSpace -> parseInt (blank +:+ s) = parseInt s.
Proof. intros Hin. unfold parseInt. by rewrite skipSpace_blank. Qed.

End ParseInt.

Lemma append_nonempty_l (a b : string) : a ≠ "" -> a +:+ b ≠ "".
Proof. destruct a; [done|]. by rewrite append_cons. Qed.

Lemma parse_date_field (s text : string) (ql : option string) :
  text ≠ "" ->
  _parseOpenThreadUrl {| q_subject := s; q_date := Some text; q_lastDate := ql |}
  = {| link_subject := s;
       lastDate := if truthyStr ql then parseInt <$> ql else None;
       date := Some (parseInt text) |}.
Proof.
  intros Htext. unfold _parseOpenThreadUrl. cbn [q_subject q_date q_lastDate].
  by rewrite truthyStr_Some.
Qed.

(** X5. The query fields [date=n] and [lastDate=n] parse to the doubles
    nearest to [n]; for integers up to [2^53] in absolute value the locator's
    [date] and [lastDate] are the integers themselves. *)
Theorem parse_printed_number (s : string) (z l : Z) :
  _parseOpenThreadUrl
    {| q_subject := s; q_date := Some (pretty z); q_lastDate := Some (pretty l) |}
  = {| link_subject := s; lastDate := Some (toDouble l); date := Some (toDouble z) |}
  ∧ (Z.abs z <= twoTo53 -> Z.abs l <= twoTo53 ->
     _parseOpenThreadUrl
       {| q_subject := s; q_date := Some (pretty z); q_lastDate := Some (pretty l) |}
     = {| link_subject := s; lastDate := Some (Num l); date := Some (Num z) |}).
Proof.
  assert (Hparse : _parseOpenThreadUrl
            {| q_subject := s; q_date := Some (pretty z); q_lastDate := Some (pretty l) |}
          = {| link_subject := s; lastDate := Some (toDouble l);
               date := Some (toDouble z) |}).
  { rewrite parse_date_field by apply pretty_Z_nonempty.
    rewrite truthyStr_Some by apply pretty_Z_nonempty.
    simpl. by rewrite !parseInt_pretty. }
  split; [exact Hparse|].
  intros Hz Hl. rewrite Hparse. by rewrite !toDouble_exact.
Qed.

Lemma parse_printed_number_witness :
  _parseOpenThreadUrl
    {| q_subject := "Hi"; q_date := Some "1000"; q_lastDate := Some "-1500" |}
  = {| link_subject := "Hi"; lastDate := Some (Num (-1500)); date := Some (Num 1000) |}
  ∧ _parseOpenThreadUrl
      {| q_subject := "Hi"; q_date := Some "9007199254740993"; q_lastDate := Some "0" |}
    = {| link_subject := "Hi"; lastDate := Some (Num 0);
         date := Some (Num 9007199254740992) |}.
Proof.
  split.
  - apply (proj2 (parse_printed_number "Hi" 1000 (-1500))); unfold twoTo53; simpl; lia.
  - etrans; [exact (proj1 (parse_printed_number "Hi" 9007199254740993 0))|].
    vm_compute. reflexivity.
Defined.

(** X6. A link made of a stored thread's subject and of the time of its first
    message (a time up to [2^53] in absolute value, which [parseInt] reads
    back as it is) opens a stored thread with that subject whose first
    message is less than 60 seconds away, unless that time is 0, the epoch,
    in which case the link opens nothing. *)
Theorem link_by_date_resolves (store : list Thread) (t : Thread) :
  In t store ->
  Z.abs (firstMessageTimestamp t) <= twoTo53 ->
  if decide (firstMessageTimestamp t = 0)
  then _onOpenThreadFromWeb store (linkByDate t) = ThreadNotFound (subject t)
  else ∃ t' : Thread,
         _onOpenThreadFromWeb store (linkByDate t) = PopoutThread t'
         ∧ In t' store
         ∧ subject t' = subject t
         ∧ insideBand (firstMessageTimestamp t) (firstMessageTimestamp t').
Proof.
  intros Hin Hsafe. unfold _onOpenThreadFromWeb.
  assert (Hparse : _parseOpenThreadUrl (linkByDate t)
                   = byDate (subject t) (firstMessageTimestamp t)).
  { unfold linkByDate, byDate. rewrite parse_date_field by apply pretty_Z_nonempty.
    simpl. by rewrite parseInt_pretty, toDouble_exact. }
  rewrite Hparse. unfold byDate. cbn [link_subject].
  destruct (decide (firstMessageTimestamp t = 0)) as [Hzero|Hnonzero].
  - rewrite Hzero. unfold _findCorrespondingThread, findBy.
    rewrite find_none_all; [reflexivity|].
    intros t'. by apply evaluate_undefined_clause.
  - assert (Hfind : _findCorrespondingThread store
                      {| link_subject := subject t; lastDate := None;
                         date := Some (Num (firstMessageTimestamp t)) |} DATE_EPSILON
                    = List.find
                        (fun t' => bool_decide
                           (matchesDate (subject t) (firstMessageTimestamp t) t')) store).
    { unfold _findCorrespondingThread, findBy. apply find_ext_bool.
      intros t'. by apply evaluate_date_clause. }
    rewrite Hfind.
    pose proof (find_first
      (fun t' => bool_decide (matchesDate (subject t) (firstMessageTimestamp t) t')) store)
      as Hfirst.
    destruct (List.find _ store) as [t'|].
    + destruct Hfirst as (before & after & -> & Hmatch & _).
      apply bool_decide_eq_true in Hmatch as [Hs Hband].
      exists t'. split; [reflexivity|]. split; [|done].
      apply in_or_app. right. by left.
    + specialize (Hfirst t Hin). apply bool_decide_eq_false in Hfirst.
      exfalso. apply Hfirst. split; [reflexivity|].
      unfold insideBand, DATE_EPSILON. lia.
Qed.

Lemma link_by_date_resolves_witness :
  _onOpenThreadFromWeb [sampleThread] (linkByDate sampleThread) = PopoutThread sampleThread.
Proof.
  pose proof (link_by_date_resolves [sampleThread] sampleThread ltac:(by left)
                ltac:(unfold twoTo53; simpl; lia)) as H.
  destruct (decide (firstMessageTimestamp sampleThread = 0)) as [Hzero|_];
    [discriminate Hzero|].
  destruct H as (t' & -> & [<-|[]] & _). reflexivity.
Defined.

(** Beyond [2^53] the bound is needed: the time [2^60 + 100] is read back
    as [2^60], 100 seconds away, and the thread's own link opens nothing. *)
Lemma link_by_date_beyond_exact :
  let t := {| thread_id := "t1"; subject := "Hi";
              firstMessageTimestamp := 1152921504606847076;
              lastMessageSentTimestamp := 1500; lastMessageReceivedTimestamp := 1600;
              pluginMetadata := None |} in
  _parseOpenThreadUrl (linkByDate t) = byDate "Hi" 1152921504606846976
  ∧ _onOpenThreadFromWeb [t] (linkByDate t) = ThreadNotFound "Hi".
Proof. intros t. split; vm_compute; reflexivity. Qed.

(** * More on the publish pipeline *)

Section PipelineMore.

Implicit Types (env : Env) (thread : Thread) (file : File).
Implicit Types (urls : gmap string string) (trace : list Effect).

(** What one turn of the upload loop can leave in the trace. *)
Lemma stepTrace_cases env file e :
  In e (stepTrace env file) ->
  (∃ data,
     e = PostStaticAsset (Some (file_id file +:+ "/" +:+ displayName file))
           (OctetStream data)
           (postStaticAsset env (Some (file_id file +:+ "/" +:+ displayName file))
                            (OctetStream data))
     ∧ readFile env (pathForFile env file) = Some data
     ∧ data ≠ [])
  ∨ (∃ err, e = ConsoleLog (displayName file) err ∧ linkOf env file = None).
Proof.
  unfold stepTrace, linkOf, uploadFile, readFileAsync, postAsync.
  destruct (readFile env (pathForFile env file)) as [data|]; simpl.
  - destruct data as [|b data]; simpl.
    + intros [<-|[]]. right. eauto.
    + destruct (postStaticAsset env _ _) as [link|] eqn:Hpost; simpl.
      * intros [<-|[]]. left. exists (b :: data). by rewrite Hpost.
      * intros [<-|[<-|[]]].
        -- left. exists (b :: data). by rewrite Hpost.
        -- right. eauto.
  - intros [<-|[]]. right. eauto.
Qed.

Lemma loopTrace_asset env stack :
  Forall (fun e => isAssetEffect e = true) (loopTrace env stack).
Proof.
  apply Forall_forall. intros e He. apply list_elem_of_In in He.
  unfold loopTrace in He. apply in_flat_map in He as (file & _ & He).
  apply stepTrace_cases in He as [(data & -> & _)|(err & -> & _)]; reflexivity.
Qed.

(** The three ways a call ends. *)
Lemma syncThreadToWeb_outcome env thread :
  (upToDate env thread ∧ syncThreadToWeb env thread = ([], Resolved tt))
  ∨ (¬ upToDate env thread
     ∧ postStaticAsset env (Some (publishedKey env thread))
         (ThreadJSON (publishedDocument env thread)) = None
     ∧ syncThreadToWeb env thread
       = (loopTrace env (rev (pendingFiles env thread))
            ++ [ PostStaticAsset (Some (publishedKey env thread))
                   (ThreadJSON (publishedDocument env thread)) None ],
          Rejected (RequestRejected (Some (publishedKey env thread)))))
  ∨ (¬ upToDate env thread
     ∧ ∃ link,
         postStaticAsset env (Some (publishedKey env thread))
           (ThreadJSON (publishedDocument env thread)) = Some link
         ∧ syncThreadToWeb env thread
           = (loopTrace env (rev (pendingFiles env thread))
                ++ [ PostStaticAsset (Some (publishedKey env thread))
                       (ThreadJSON (publishedDocument env thread)) (Some link);
                     QueueTask {| model := thread;
                                  value := publishedMetadata env thread |} ],
              Resolved tt)).
Proof.
  destruct (decide (upToDate env thread)) as [Hold|Hnew].
  - left. split; [exact Hold|by apply syncThreadToWeb_noop].
  - right. rewrite (syncThreadToWeb_publish _ _ Hnew). cbv zeta.
    destruct (postStaticAsset env _ _) as [link|] eqn:Hpost.
    + right. split; [exact Hnew|]. by exists link.
    + left. by split.
Qed.

Lemma in_publish_trace env thread e :
  In e (fst (syncThreadToWeb env thread)) ->
  ¬ upToDate env thread
  ∧ (In e (loopTrace env (rev (pendingFiles env thread)))
     ∨ e = PostStaticAsset (Some (publishedKey env thread))
             (ThreadJSON (publishedDocument env thread))
             (postStaticAsset env (Some (publishedKey env thread))
                (ThreadJSON (publishedDocument env thread)))
     ∨ (e = QueueTask {| model := thread; value := publishedMetadata env thread |}
        ∧ is_Some (postStaticAsset env (Some (publishedKey env thread))
                     (ThreadJSON (publishedDocument env thread))))).
Proof.
  destruct (syncThreadToWeb_outcome env thread)
    as [[_ ->]|[(Hnew & Hpost & ->)|(Hnew & link & Hpost & ->)]]; simpl.
  - intros [].
  - intros [Hin|[<-|[]]]%in_app_or; (split; [exact Hnew|]); [by left|].
    right. left. by rewrite Hpost.
  - intros [Hin|[<-|[<-|[]]]]%in_app_or; (split; [exact Hnew|]); [by left| |].
    + right. left. by rewrite Hpost.
    + right. right. split; [reflexivity|]. rewrite Hpost. by eexists.
Qed.

Lemma persist_resolved env thread trace :
  syncThreadToWeb env thread = (trace, Resolved tt) ->
  ¬ upToDate env thread ->
  persist trace thread = withMetadata thread (publishedMetadata env thread)
  ∧ ∃ link,
      In (PostStaticAsset (Some (publishedKey env thread))
            (ThreadJSON (publishedDocument env thread)) (Some link)) trace.
Proof.
  intros Hcall Hnew.
  destruct (syncThreadToWeb_outcome env thread)
    as [[Hold _]|[(_ & _ & Hrej)|(_ & link & _ & Hres)]].
  - contradiction.
  - rewrite Hrej in Hcall. discriminate.
  - rewrite Hres in Hcall. injection Hcall as <-. split.
    + rewrite persist_app, persist_loopTrace. unfold persist. simpl.
      apply performTask_own.
    + exists link. apply in_or_app. right. by left.
Qed.

Lemma publishedKey_nonempty env thread : publishedKey env thread ≠ "".
Proof.
  unfold publishedKey, keyFor.
  destruct (key (storedMetadata thread)) as [k|]; simpl.
  - destruct (String.eqb_spec k "") as [->|Hk]; simpl; [|exact Hk].
    by apply append_nonempty_r.
  - by apply append_nonempty_r.
Qed.

Lemma uploadedURLs_lookup_failed env stack urls i :
  (∀ file, In file stack -> file_id file = i -> linkOf env file = None) ->
  uploadedURLs env stack urls !! i = urls !! i.
Proof.
  unfold uploadedURLs. revert urls.
  induction stack as [|file rest IH]; intros urls Hfail; simpl; [reflexivity|].
  rewrite IH by (intros g Hg; apply Hfail; by right).
  unfold recordLink. destruct (linkOf env file) as [link|] eqn:Hlink; [|reflexivity].
  destruct (decide (file_id file = i)) as [Hi|Hi].
  - rewrite (Hfail file) in Hlink; [discriminate|by left|exact Hi].
  - by rewrite lookup_insert_ne.
Qed.

Lemma classic_in_ids (stack : list File) (i : string) :
  (∃ file, In file stack ∧ file_id file = i) ∨ ¬ (∃ file, In file stack ∧ file_id file = i).
Proof.
  induction stack as [|file rest IH]; [right; by intros (f & [] & _)|].
  destruct (decide (file_id file = i)) as [Hi|Hi].
  - left. exists file. split; [by left|exact Hi].
  - destruct IH as [(f & Hf & Hfi)|Hnot].
    + left. exists f. split; [by right|exact Hfi].
    + right. intros (f & [<-|Hf] & Hfi); [contradiction|]. apply Hnot. eauto.
Qed.

Lemma uploadedURLs_lookup_linked env stack urls i link :
  (∃ file, In file stack ∧ file_id file = i) ->
  (∀ file, In file stack -> file_id file = i -> linkOf env file = Some link) ->
  uploadedURLs env stack urls !! i = Some link.
Proof.
  unfold uploadedURLs. revert urls.
  induction stack as [|file rest IH]; intros urls [g [Hg Hgi]] Hall; [destruct Hg|].
  simpl.
  destruct (classic_in_ids rest i) as [Hin|Hnot].
  - apply IH; [exact Hin|]. intros f Hf. apply Hall. by right.
  - fold (uploadedURLs env rest (recordLink env urls file)).
    rewrite uploadedURLs_lookup_other by (intros f Hf Hfi; apply Hnot; eauto).
    destruct Hg as [->|Hg]; [|exfalso; apply Hnot; eauto].
    unfold recordLink. rewrite (Hall g) by (by left || done).
    rewrite Hgi. by rewrite lookup_insert_eq.
Qed.

Lemma uploadedURLs_provenance env stack urls i u :
  uploadedURLs env stack urls !! i = Some u ->
  urls !! i = Some u
  ∨ ∃ file, In file stack ∧ file_id file = i ∧ linkOf env file = Some u.
Proof.
  unfold uploadedURLs. revert urls.
  induction stack as [|file rest IH]; intros urls; simpl; [by left|].
  intros [Hprev|(g & Hg & Hgi & Hlink)]%IH.
  - unfold recordLink in Hprev.
    destruct (linkOf env file) as [link|] eqn:Hlink; [|by left].
    destruct (decide (file_id file = i)) as [Hi|Hi].
    + rewrite Hi, lookup_insert_eq in Hprev. injection Hprev as <-.
      right. exists file. split; [by left|done].
    + rewrite lookup_insert_ne in Hprev by done. by left.
  - right. exists g. split; [by right|done].
Qed.

End PipelineMore.

(** X7. A publish ends in one of three ways: with an empty trace when the
    stored hash is the fingerprint; rejected, when the request that posts the
    thread's JSON is rejected, with a trace of attachment requests and logs
    followed by that one request and no queued task; or resolved, with the
    attachment requests and logs, then the one request for the thread's JSON,
    then the one queued task. No failure of an attachment rejects the call,
    and nothing is queued before the thread's JSON is posted. *)
Theorem publish_outcomes (env : Env) (thread : Thread) :
  ∃ assets : list Effect,
    Forall (fun e => isAssetEffect e = true) assets
    ∧ ((upToDate env thread ∧ syncThreadToWeb env thread = ([], Resolved tt))
       ∨ (¬ upToDate env thread
          ∧ ∃ filename doc,
              postStaticAsset env filename (ThreadJSON doc) = None
              ∧ syncThreadToWeb env thread
                = (assets ++ [PostStaticAsset filename (ThreadJSON doc) None],
                   Rejected (RequestRejected filename)))
       ∨ (¬ upToDate env thread
          ∧ ∃ filename doc link task,
              postStaticAsset env filename (ThreadJSON doc) = Some link
              ∧ syncThreadToWeb env thread
                = (assets ++ [PostStaticAsset filename (ThreadJSON doc) (Some link);
                              QueueTask task],
                   Resolved tt))).
Proof.
  exists (loopTrace env (rev (pendingFiles env thread))).
  split; [apply loopTrace_asset|].
  destruct (syncThreadToWeb_outcome env thread)
    as [Hold|[(Hnew & Hpost & Hcall)|(Hnew & link & Hpost & Hcall)]].
  - by left.
  - right. left. split; [exact Hnew|]. eauto.
  - right. right. split; [exact Hnew|]. eexists _, _, link, _. eauto.
Qed.

(** X8. The only attachment requests a publish makes are for attachments of
    messages of the thread that are not hidden, whose id has no link (or an
    empty one) in the stored metadata, and whose file was read with at least
    one byte; the request is named [`${file.id}/${file.displayName()}`] and
    carries the bytes read. *)
Theorem uploads_only_missing (env : Env) (thread : Thread) (filename : option string)
    (blob : Blob) (result : option string) :
  In (PostStaticAsset filename blob result) (fst (syncThreadToWeb env thread)) ->
  isUpload (PostStaticAsset filename blob result) = true ->
  ∃ (m : Message) (file : File) (data : list Byte.byte),
    In m (findAllMessages env (thread_id thread))
    ∧ isHidden m = false
    ∧ In file (files m)
    ∧ truthyStr (storedURLs thread !! file_id file) = false
    ∧ readFile env (pathForFile env file) = Some data
    ∧ data ≠ []
    ∧ filename = Some (file_id file +:+ "/" +:+ displayName file)
    ∧ blob = OctetStream data
    ∧ result = postStaticAsset env filename blob.
Proof.
  intros Hin Hupload.
  apply in_publish_trace in Hin as [_ [Hin|[Heq|[Heq _]]]].
  - unfold loopTrace in Hin. apply in_flat_map in Hin as (file & Hfile & He).
    apply in_rev in Hfile. unfold pendingFiles, toUploadOf in Hfile.
    apply filter_In in Hfile as [Hfile Hfalsy].
    apply in_flat_map in Hfile as (m & Hm & Hfile).
    unfold visibleMessages in Hm. apply filter_In in Hm as [Hm Hvisible].
    apply stepTrace_cases in He as [(data & Heq & Hread & Hdata)|(err & Heq & _)];
      [|discriminate].
    injection Heq as -> -> ->.
    exists m, file, data. apply negb_true_iff in Hvisible, Hfalsy. done.
  - injection Heq as -> -> ->. discriminate.
  - discriminate.
Qed.

Lemma uploads_only_missing_witness :
  ∃ (file : File) (data : list Byte.byte),
    In file [fileA; fileB; fileC]
    ∧ readFile sampleEnv (pathForFile sampleEnv file) = Some data
    ∧ data ≠ [].
Proof.
  destruct (uploads_only_missing sampleEnv sampleThread (Some "f1/a.txt")
              (OctetStream [Byte.x41]) (Some "https://shared.test/f1/a.txt"))
    as (m & file & data & Hm & _ & Hfile & _ & Hread & Hdata & _).
  - vm_compute. right. right. left. reflexivity.
  - reflexivity.
  - exists file, data. split; [|done].
    destruct Hm as [<-|[<-|[]]]; simpl in Hfile; simpl; tauto.
Defined.

(** X9. What a publish posts is what it records. The thread's JSON is posted
    under a non-empty name and holds the thread, the identity, and the
    messages that are not hidden, in order, with their bodies passed through
    [removeQuotedHTML]; a task is queued only when that request resolved, for
    this thread, with [shared = true], the name of the request as key, the
    document's [fileURLs] and the fingerprint of the messages. *)
Theorem snapshot_matches_metadata (env : Env) (thread : Thread) (filename : option string)
    (doc : Document) (result : option string) :
  In (PostStaticAsset filename (ThreadJSON doc) result) (fst (syncThreadToWeb env thread)) ->
  (∃ k, filename = Some k ∧ k ≠ "")
  ∧ doc_thread doc = thread
  ∧ sharedBy doc = identity env
  ∧ Forall (fun m => isHidden m = false) (doc_messages doc)
  ∧ map message_id (doc_messages doc) = map message_id (visibleMessages env thread)
  ∧ map version (doc_messages doc) = map version (visibleMessages env thread)
  ∧ map body (doc_messages doc)
    = map (fun m => removeQuotedHTML env (body m)) (visibleMessages env thread)
  ∧ ∀ task : Task,
      In (QueueTask task) (fst (syncThreadToWeb env thread)) ->
      is_Some result
      ∧ model task = thread
      ∧ shared (value task) = Some true
      ∧ key (value task) = filename
      ∧ fileURLs (value task) = Some (doc_fileURLs doc)
      ∧ combinedVersionHash (value task)
        = Some (combinedVersionHashOf (visibleMessages env thread)).
Proof.
  intros Hin.
  apply in_publish_trace in Hin as [_ [Hin|[Heq|[Heq _]]]]; [| |discriminate].
  { apply loopTrace_effects in Hin as [Hsnap _]. discriminate. }
  injection Heq as -> -> ->.
  split; [exists (publishedKey env thread); split; [done|apply publishedKey_nonempty]|].
  split; [reflexivity|]. split; [reflexivity|].
  unfold publishedDocument, documentOf. cbn [doc_messages doc_fileURLs].
  split.
  { apply Forall_forall. intros m Hm. apply list_elem_of_In, in_map_iff in Hm.
    destruct Hm as (m0 & <- & Hm0). simpl.
    unfold visibleMessages in Hm0. apply filter_In in Hm0 as [_ Hvisible].
    by apply negb_true_iff. }
  rewrite !map_map. cbn [message_id version body].
  split; [reflexivity|]. split; [reflexivity|]. split; [reflexivity|].
  intros task Htask.
  apply in_publish_trace in Htask as [_ [Htask|[Heq|[Heq Hres]]]].
  - apply loopTrace_effects in Htask as [_ Hq]. discriminate.
  - discriminate.
  - injection Heq as ->. done.
Qed.

Lemma snapshot_matches_metadata_witness :
  ∃ doc : Document,
    In (PostStaticAsset (Some "t1-1234") (ThreadJSON doc) (Some "https://shared.test/t1-1234"))
       (fst (syncThreadToWeb sampleEnv sampleThread))
    ∧ map message_id (doc_messages doc) = ["m1"; "m2"].
Proof.
  exists (publishedDocument sampleEnv sampleThread).
  assert (Hin : In (PostStaticAsset (Some "t1-1234")
                      (ThreadJSON (publishedDocument sampleEnv sampleThread))
                      (Some "https://shared.test/t1-1234"))
                   (fst (syncThreadToWeb sampleEnv sampleThread))).
  { vm_compute. right. right. right. left. reflexivity. }
  split; [exact Hin|].
  destruct (snapshot_matches_metadata sampleEnv sampleThread _ _ _ Hin)
    as (_ & _ & _ & _ & -> & _).
  reflexivity.
Defined.

Section PipelineRuns.

Implicit Types (env : Env) (thread : Thread) (file : File).

Lemma queued_task env thread task :
  In (QueueTask task) (fst (syncThreadToWeb env thread)) ->
  ¬ upToDate env thread
  ∧ task = {| model := thread; value := publishedMetadata env thread |}.
Proof.
  intros [Hnew [Hin|[Heq|[Heq _]]]]%in_publish_trace.
  - apply loopTrace_effects in Hin as [_ Hq]. discriminate.
  - discriminate.
  - injection Heq as ->. done.
Qed.

Lemma pendingFiles_visible env thread file :
  In file (pendingFiles env thread) ->
  truthyStr (storedURLs thread !! file_id file) = false
  ∧ ∃ m, In m (findAllMessages env (thread_id thread))
         ∧ isHidden m = false ∧ In file (files m).
Proof.
  unfold pendingFiles, toUploadOf. intros [Hfile Hfalsy]%filter_In.
  apply negb_true_iff in Hfalsy. split; [exact Hfalsy|].
  apply in_flat_map in Hfile as (m & Hm & Hfile).
  unfold visibleMessages in Hm. apply filter_In in Hm as [Hm Hvisible].
  apply negb_true_iff in Hvisible. eauto.
Qed.

Lemma withMetadata_stored thread metadata :
  storedMetadata (withMetadata thread metadata) = metadata.
Proof. reflexivity. Qed.

Lemma sharingURL_published env thread identityId :
  sharingURLForThread identityId (withMetadata thread (publishedMetadata env thread))
  = Some ("https://shared.getmailspring.com/thread/" +:+ identityId +:+ "/"
            +:+ publishedKey env thread).
Proof.
  unfold sharingURLForThread. simpl.
  pose proof (publishedKey_nonempty env thread) as Hk.
  by destruct (String.eqb_spec (publishedKey env thread) "").
Qed.

Lemma sharingURL_key identityId thread url :
  sharingURLForThread identityId thread = Some url ->
  isShared thread = true
  ∧ ∃ k, keyOf thread = Some k ∧ k ≠ ""
         ∧ url = "https://shared.getmailspring.com/thread/" +:+ identityId +:+ "/" +:+ k.
Proof.
  unfold sharingURLForThread, isShared, keyOf.
  destruct (key (default emptyMetadata (metadataForPluginId thread))) as [k|];
    simpl; [|discriminate].
  destruct (String.eqb_spec k "") as [->|Hk]; simpl; [discriminate|].
  destruct (shared (default emptyMetadata (metadataForPluginId thread))) as [[]|];
    simpl; try discriminate.
  intros [= <-]. split; [reflexivity|]. by exists k.
Qed.

Lemma step_publish_keeps_sharingURL env thread identityId url :
  sharingURLForThread identityId thread = Some url ->
  sharingURLForThread identityId (step thread (Publish env)) = Some url.
Proof.
  intros Hurl. destruct (step_publish env thread) as [->|[_ ->]]; [exact Hurl|].
  rewrite sharingURL_published.
  apply sharingURL_key in Hurl as (_ & k & Hk & Hne & ->).
  do 4 f_equal. unfold publishedKey. by apply keyFor_present.
Qed.

End PipelineRuns.

(** X10. Every link in the [fileURLs] a publish queues was either stored for
    that id before the call, or is the link returned during the call for an
    attachment with that id of a message that is not hidden. *)
Theorem fileURLs_provenance (env : Env) (thread : Thread) (task : Task)
    (urls : gmap string string) (i u : string) :
  In (QueueTask task) (fst (syncThreadToWeb env thread)) ->
  fileURLs (value task) = Some urls ->
  urls !! i = Some u ->
  storedURLs thread !! i = Some u
  ∨ ∃ (m : Message) (file : File),
      In m (findAllMessages env (thread_id thread))
      ∧ isHidden m = false
      ∧ In file (files m)
      ∧ file_id file = i
      ∧ linkOf env file = Some u.
Proof.
  intros [_ ->]%queued_task [= <-] Hlookup.
  unfold publishedURLs in Hlookup.
  apply uploadedURLs_provenance in Hlookup as [Hstored|(file & Hfile & Hi & Hlink)];
    [by left|right].
  apply in_rev, pendingFiles_visible in Hfile as (_ & m & Hm & Hvisible & Hfile).
  by exists m, file.
Qed.

Lemma fileURLs_provenance_witness :
  storedURLs sampleThread !! "f3" = Some "https://shared.test/f3/c.txt"
  ∨ ∃ (m : Message) (file : File),
      In m (findAllMessages sampleEnv (thread_id sampleThread))
      ∧ isHidden m = false
      ∧ In file (files m)
      ∧ file_id file = "f3"
      ∧ linkOf sampleEnv file = Some "https://shared.test/f3/c.txt".
Proof.
  apply (fileURLs_provenance sampleEnv sampleThread
           {| model := sampleThread; value := publishedMetadata sampleEnv sampleThread |}
           (publishedURLs sampleEnv sampleThread)).
  - vm_compute. right. right. right. right. left. reflexivity.
  - reflexivity.
  - vm_compute. reflexivity.
Defined.

(** X11. When a publish queues its task, an attachment it set out to upload
    whose upload resolved (as did that of every other pending attachment with
    the same id, to the same link) has that link under its id in the queued
    [fileURLs]. *)
Theorem new_attachment_recorded (env : Env) (thread : Thread) (task : Task) (file : File)
    (link : string) :
  In (QueueTask task) (fst (syncThreadToWeb env thread)) ->
  In file (pendingFiles env thread) ->
  (∀ g : File, In g (pendingFiles env thread) -> file_id g = file_id file ->
     linkOf env g = Some link) ->
  ∃ urls : gmap string string,
    fileURLs (value task) = Some urls ∧ urls !! file_id file = Some link.
Proof.
  intros [_ ->]%queued_task Hfile Hall.
  exists (publishedURLs env thread). split; [reflexivity|].
  unfold publishedURLs. apply uploadedURLs_lookup_linked.
  - exists file. split; [by apply in_rev; rewrite rev_involutive|reflexivity].
  - intros g Hg. apply Hall. by apply in_rev.
Qed.

Lemma new_attachment_recorded_witness :
  ∃ urls : gmap string string,
    fileURLs (publishedMetadata sampleEnv sampleThread) = Some urls
    ∧ urls !! "f1" = Some "https://shared.test/f1/a.txt".
Proof.
  apply (new_attachment_recorded sampleEnv sampleThread
           {| model := sampleThread; value := publishedMetadata sampleEnv sampleThread |}
           fileA).
  - vm_compute. right. right. right. right. left. reflexivity.
  - vm_compute. by left.
  - intros g Hg Hid. vm_compute in Hg.
    destruct Hg as [<-|[<-|[<-|[]]]]; [reflexivity|discriminate Hid|discriminate Hid].
Defined.

(** X12. An attachment that a resolved publish had to skip (no upload with
    its id resolved) has no link in the metadata that publish stores, so the
    next publish that is not short-circuited runs the [try] block for it
    again if the attachment is still on a message that is not hidden. *)
Theorem skipped_attachment_is_retried (env env' : Env) (thread : Thread)
    (trace : list Effect) (file : File) :
  syncThreadToWeb env thread = (trace, Resolved tt) ->
  ¬ upToDate env thread ->
  In file (pendingFiles env thread) ->
  (∀ g : File, In g (pendingFiles env thread) -> file_id g = file_id file ->
     linkOf env g = None) ->
  In file (flat_map files (visibleMessages env' thread)) ->
  ¬ upToDate env' (persist trace thread) ->
  urlOf (persist trace thread) (file_id file) = storedURLs thread !! file_id file
  ∧ In file (pendingFiles env' (persist trace thread))
  ∧ ∀ e : Effect,
      In e (stepTrace env' file) ->
      In e (fst (syncThreadToWeb env' (persist trace thread))).
Proof.
  intros Hcall Hnew Hfile Hfailed Hstill Hnew'.
  destruct (persist_resolved _ _ _ Hcall Hnew) as [Hstored _].
  rewrite Hstored in *.
  assert (Hurl : storedURLs (withMetadata thread (publishedMetadata env thread))
                   !! file_id file
                 = storedURLs thread !! file_id file).
  { unfold storedURLs at 1. simpl. unfold publishedURLs.
    apply uploadedURLs_lookup_failed. intros g Hg. apply Hfailed. by apply in_rev. }
  assert (Hpending : In file (pendingFiles env'
                                (withMetadata thread (publishedMetadata env thread)))).
  { unfold pendingFiles, toUploadOf. apply filter_In. split; [exact Hstill|].
    rewrite Hurl. apply negb_true_iff. by apply pendingFiles_visible in Hfile as [? _]. }
  split; [by rewrite urlOf_stored|]. split; [exact Hpending|].
  intros e He.
  rewrite (syncThreadToWeb_publish _ _ Hnew'). cbv zeta.
  assert (Hloop : In e (loopTrace env'
            (rev (pendingFiles env' (withMetadata thread (publishedMetadata env thread)))))).
  { unfold loopTrace. apply in_flat_map. exists file. split; [|exact He].
    by apply in_rev; rewrite rev_involutive. }
  destruct (postStaticAsset env' _ _); simpl; apply in_or_app; by left.
Qed.

Lemma skipped_attachment_is_retried_witness :
  let trace := fst (syncThreadToWeb sampleEnv sampleThread) in
  In fileB (pendingFiles editedEnv (persist trace sampleThread))
  ∧ In (ConsoleLog "b.txt" (FileNotOnDisk "/files/f2"))
       (fst (syncThreadToWeb editedEnv (persist trace sampleThread))).
Proof.
  intros trace.
  assert (Hcall : syncThreadToWeb sampleEnv sampleThread = (trace, Resolved tt))
    by (vm_compute; reflexivity).
  assert (Hnew : ¬ upToDate sampleEnv sampleThread) by (unfold upToDate; discriminate).
  assert (Hnew' : ¬ upToDate editedEnv (persist trace sampleThread))
    by (vm_compute; discriminate).
  destruct (skipped_attachment_is_retried sampleEnv editedEnv sampleThread trace fileB
              Hcall Hnew) as (_ & Hpending & Hagain).
  - vm_compute. tauto.
  - intros g Hg Hid. vm_compute in Hg.
    destruct Hg as [<-|[<-|[<-|[]]]]; [discriminate Hid|reflexivity|discriminate Hid].
  - vm_compute. tauto.
  - exact Hnew'.
  - split; [exact Hpending|]. apply Hagain. vm_compute. by left.
Defined.

(** X13. After an unpublish that went through, the next publish is never
    short-circuited, even when no message has changed, and it sets out to
    upload every attachment of every message that is not hidden, whatever had
    been uploaded before the unpublish. *)
Theorem reshare_starts_over (env env' : Env) (thread : Thread) :
  is_Some (postStaticAsset env (keyOf thread) UnsharedJSON) ->
  ¬ upToDate env' (step thread (Unpublish env))
  ∧ pendingFiles env' (step thread (Unpublish env))
    = flat_map files (visibleMessages env' thread)
  ∧ ∃ rest,
      fst (syncThreadToWeb env' (step thread (Unpublish env)))
      = loopTrace env' (rev (flat_map files (visibleMessages env' thread))) ++ rest
      ∧ existsb isSnapshotAttempt rest = true.
Proof.
  intros [link Hpost]. rewrite step_unpublish, Hpost.
  set (thread' := withMetadata thread (unsharedMetadata thread)).
  assert (Hnew : ¬ upToDate env' thread') by (unfold upToDate; simpl; discriminate).
  assert (Hpending : pendingFiles env' thread' = flat_map files (visibleMessages env' thread))
    by (by rewrite pendingFiles_first_publish).
  split; [exact Hnew|]. split; [exact Hpending|].
  rewrite (syncThreadToWeb_publish _ _ Hnew). cbv zeta. rewrite Hpending.
  destruct (postStaticAsset env' _ _); simpl; eexists; (split; [reflexivity|reflexivity]).
Qed.

Lemma reshare_starts_over_witness :
  pendingFiles sampleEnv (step sharedThread (Unpublish sampleEnv)) = [fileA; fileB; fileC]
  ∧ pendingFiles sampleEnv sharedThread = [fileB].
Proof.
  split; [|vm_compute; reflexivity].
  destruct (reshare_starts_over sampleEnv sampleEnv sharedThread) as (_ & -> & _).
  - vm_compute. by eexists.
  - reflexivity.
Defined.

(** X14. An unpublish whose request is rejected queues nothing and leaves the
    stored thread as it was, still shared if it was. One that goes through
    stores a thread that is not shared; unpublishing that thread again posts
    to the same name and stores the same thread. *)
Theorem unpublish_twice (env env2 : Env) (thread : Thread) :
  (postStaticAsset env (keyOf thread) UnsharedJSON = None ->
   unsyncThread env thread
   = ([PostStaticAsset (keyOf thread) UnsharedJSON None],
      Rejected (RequestRejected (keyOf thread)))
   ∧ step thread (Unpublish env) = thread)
  ∧ (is_Some (postStaticAsset env (keyOf thread) UnsharedJSON) ->
     isShared (step thread (Unpublish env)) = false
     ∧ (∀ e, In e (fst (unsyncThread env2 (step thread (Unpublish env)))) ->
          isQueueTask e = true
          ∨ ∃ result, e = PostStaticAsset (keyOf thread) UnsharedJSON result)
     ∧ (is_Some (postStaticAsset env2 (keyOf thread) UnsharedJSON) ->
        step (step thread (Unpublish env)) (Unpublish env2)
        = step thread (Unpublish env))).
Proof.
  split.
  - intros Hpost. rewrite step_unpublish, unsyncThread_spec, Hpost. done.
  - intros [link Hpost]. rewrite step_unpublish, Hpost.
    set (thread' := withMetadata thread (unsharedMetadata thread)).
    assert (Hkey : keyOf thread' = keyOf thread) by reflexivity.
    split; [reflexivity|]. split.
    + intros e. rewrite unsyncThread_spec, Hkey.
      destruct (postStaticAsset env2 _ _); simpl.
      * intros [<-|[<-|[]]]; [right; eauto|by left].
      * intros [<-|[]]. right. eauto.
    + intros [link2 Hpost2]. rewrite step_unpublish, Hkey, Hpost2. reflexivity.
Qed.

Lemma unpublish_twice_witness :
  isShared sharedThread = true
  ∧ isShared (step sharedThread (Unpublish sampleEnv)) = false
  ∧ step (step sharedThread (Unpublish sampleEnv)) (Unpublish laterEnv)
    = step sharedThread (Unpublish sampleEnv).
Proof.
  destruct (unpublish_twice sampleEnv laterEnv sharedThread) as [_ Hdone].
  destruct Hdone as (Hunshared & _ & Hagain); [vm_compute; by eexists|].
  split; [reflexivity|]. split; [exact Hunshared|].
  apply Hagain. vm_compute. by eexists.
Defined.

(** X15. The sharing URL. A thread has one only when it is shared and has a
    non-empty key, and the URL ends in that key. After a publish that
    resolved, the stored thread is shared and its URL ends in the name under
    which the thread's JSON was posted; after an unpublish that went through
    the thread has no sharing URL. *)
Theorem sharing_url_follows_publish (env : Env) (thread : Thread) (identityId : string) :
  (∀ url, sharingURLForThread identityId thread = Some url ->
     isShared thread = true
     ∧ ∃ k, keyOf thread = Some k ∧ k ≠ ""
            ∧ url = "https://shared.getmailspring.com/thread/" +:+ identityId
                      +:+ "/" +:+ k)
  ∧ (∀ trace, syncThreadToWeb env thread = (trace, Resolved tt) ->
       ¬ upToDate env thread ->
       isShared (persist trace thread) = true
       ∧ ∃ k doc link,
           In (PostStaticAsset (Some k) (ThreadJSON doc) (Some link)) trace
           ∧ sharingURLForThread identityId (persist trace thread)
             = Some ("https://shared.getmailspring.com/thread/" +:+ identityId
                       +:+ "/" +:+ k))
  ∧ (is_Some (postStaticAsset env (keyOf thread) UnsharedJSON) ->
     sharingURLForThread identityId (step thread (Unpublish env)) = None).
Proof.
  split; [intros url; apply sharingURL_key|]. split.
  - intros trace Hcall Hnew.
    destruct (persist_resolved _ _ _ Hcall Hnew) as [-> [link Hin]].
    split; [reflexivity|].
    exists (publishedKey env thread), (publishedDocument env thread), link.
    split; [exact Hin|apply sharingURL_published].
  - intros [link Hpost]. rewrite step_unpublish, Hpost.
    unfold sharingURLForThread. simpl. by rewrite orb_true_r.
Qed.

Lemma sharing_url_follows_publish_witness :
  isShared sharedThread = true
  ∧ ∃ k doc link,
      In (PostStaticAsset (Some k) (ThreadJSON doc) (Some link))
         (fst (syncThreadToWeb sampleEnv sampleThread))
      ∧ sharingURLForThread "id-7" sharedThread
        = Some ("https://shared.getmailspring.com/thread/" +:+ "id-7" +:+ "/" +:+ k).
Proof.
  destruct (sharing_url_follows_publish sampleEnv sampleThread "id-7")
    as (_ & Hpublished & _).
  apply (Hpublished (fst (syncThreadToWeb sampleEnv sampleThread))).
  - vm_compute. reflexivity.
  - unfold upToDate. discriminate.
Defined.

(** X16. The sharing URL of a thread does not change when the thread is
    published again, however often and whatever its messages have become. *)
Theorem sharing_url_is_stable (envs : list Env) (thread : Thread) (identityId url : string) :
  sharingURLForThread identityId thread = Some url ->
  sharingURLForThread identityId (run (map Publish envs) thread) = Some url.
Proof.
  unfold run. revert thread.
  induction envs as [|env envs IH]; intros thread Hurl; simpl; [exact Hurl|].
  apply IH. by apply step_publish_keeps_sharingURL.
Qed.

Lemma sharing_url_is_stable_witness :
  sharingURLForThread "id-7" (run (map Publish [editedEnv; laterEnv]) sharedThread)
  = Some "https://shared.getmailspring.com/thread/id-7/t1-1234".
Proof.
  apply (sharing_url_is_stable [editedEnv; laterEnv] sharedThread "id-7").
  vm_compute. reflexivity.
Defined.

(** X17. What the flush does with one thread never rejects: a rejected
    publish is logged under the thread's subject, after what the publish did,
    and the task the publish queued, if any, is the only one. *)
Theorem flush_swallows_rejection (env : Env) (thread : Thread) :
  snd (publishGuarded env thread) = Resolved tt
  ∧ match snd (syncThreadToWeb env thread) with
    | Resolved _ => fst (publishGuarded env thread) = fst (syncThreadToWeb env thread)
    | Rejected err =>
        fst (publishGuarded env thread)
        = fst (syncThreadToWeb env thread) ++ [ConsoleLog (subject thread) err]
        ∧ persist (fst (publishGuarded env thread)) thread = thread
    end.
Proof.
  unfold publishGuarded.
  destruct (syncThreadToWeb_outcome env thread)
    as [[_ ->]|[(_ & _ & ->)|(_ & link & _ & ->)]]; simpl; try done.
  split; [reflexivity|]. split; [reflexivity|].
  rewrite !persist_app, persist_loopTrace. reflexivity.
Qed.

(** X18. The metadata a publish stores does not set off another publish that
    writes: the change record of the stored thread puts it in the scheduler's
    buffer, that thread alone makes up the flush, and publishing it (with the
    messages unchanged) does nothing, so no further task is queued. *)
Theorem publish_feedback_stops (env env' : Env) (thread : Thread) (trace : list Effect)
    (t : Z) :
  syncThreadToWeb env thread = (trace, Resolved tt) ->
  ¬ upToDate env thread ->
  findAllMessages env' (thread_id thread) = findAllMessages env (thread_id thread) ->
  let stored := persist trace thread in
  let s := _onDatabaseChange t
             {| change_type := "persist"; objectClass := "Thread"; objects := [stored] |}
             idle in
  soonTimer s = Some (t + DELAY)
  ∧ fst (onTimer s) = [stored]
  ∧ publishGuarded env' stored = ([], Resolved tt).
Proof.
  intros Hcall Hnew Hmsgs stored s.
  destruct (persist_resolved _ _ _ Hcall Hnew) as [Hstored _].
  subst s stored. rewrite Hstored.
  unfold _onDatabaseChange. simpl.
  split; [reflexivity|]. split.
  - unfold onTimer. simpl. by rewrite insert_empty, map_to_list_singleton.
  - unfold publishGuarded. rewrite syncThreadToWeb_noop; [reflexivity|].
    unfold upToDate. simpl. do 2 f_equal. unfold visibleMessages. simpl.
    by rewrite Hmsgs.
Qed.

Lemma publish_feedback_stops_witness :
  publishGuarded sampleEnv sharedThread = ([], Resolved tt).
Proof.
  destruct (publish_feedback_stops sampleEnv sampleEnv sampleThread
              (fst (syncThreadToWeb sampleEnv sampleThread)) 0) as (_ & _ & Hnoop).
  - vm_compute. reflexivity.
  - unfold upToDate. discriminate.
  - reflexivity.
  - exact Hnoop.
Defined.

(** * More on the scheduler *)

Section SchedulerMore.

Implicit Types (s : Scheduler) (thread th : Thread) (i : string).
Implicit Types (events rest : list (Z * Thread)) (batch : list Thread).

Lemma onDatabaseChange_fold t objs s :
  fold_left (fun s thread => if isShared thread then syncThreadToWebSoon t thread s else s)
            objs s
  = notifyAll (map (fun th => (t, th)) (List.filter isShared objs)) s.
Proof.
  unfold notifyAll. revert s.
  induction objs as [|th objs IH]; intros s; simpl; [reflexivity|].
  destruct (isShared th); simpl; apply IH.
Qed.

Lemma find_none_in {A : Type} (f : A -> bool) (l : list A) :
  (∀ x, In x l -> f x = false) -> List.find f l = None.
Proof.
  induction l as [|x l IH]; simpl; intros Hf; [reflexivity|].
  rewrite (Hf x) by (by left). apply IH. intros y Hy. apply Hf. by right.
Qed.

Lemma lastNotified_none i events :
  (∀ e, In e events -> thread_id e.2 ≠ i) -> lastNotified i events = None.
Proof.
  intros Hnone. unfold lastNotified. rewrite find_none_in; [reflexivity|].
  intros e He. apply in_rev in He. apply String.eqb_neq. by apply Hnone.
Qed.

Lemma in_batch s th :
  In th (fst (onTimer s)) <-> ∃ k, soon s !! k = Some th.
Proof.
  unfold onTimer. cbn [fst]. rewrite <- list_elem_of_In, list_elem_of_fmap. split.
  - intros ([k x] & -> & Hin). apply elem_of_map_to_list in Hin. by exists k.
  - intros [k Hk]. exists (k, th). split; [reflexivity|]. by apply elem_of_map_to_list.
Qed.

Lemma filedById_idle : filedById idle.
Proof. intros k th. simpl. by rewrite lookup_empty. Qed.

Lemma filedById_notify t thread s :
  filedById s -> filedById (syncThreadToWebSoon t thread s).
Proof.
  intros Hs k th. simpl.
  destruct (decide (thread_id thread = k)) as [<-|Hne].
  - rewrite lookup_insert_eq. by intros [= <-].
  - rewrite lookup_insert_ne by done. apply Hs.
Qed.

Lemma timerHasWork_notify t thread s : timerHasWork (syncThreadToWebSoon t thread s).
Proof. intros due _. simpl. apply insert_non_empty. Qed.

Lemma batch_ids_NoDup s : filedById s -> NoDup (map thread_id (fst (onTimer s))).
Proof.
  intros Hs. unfold onTimer. cbn [fst].
  replace (map thread_id (map_to_list (soon s)).*2) with (map_to_list (soon s)).*1.
  - apply NoDup_fst_map_to_list.
  - assert (Hall : ∀ kv, In kv (map_to_list (soon s)) -> thread_id kv.2 = kv.1).
    { intros [k th] Hin. apply list_elem_of_In, elem_of_map_to_list in Hin. by apply Hs. }
    induction (map_to_list (soon s)) as [|kv l IH]; [reflexivity|].
    cbn. rewrite <- (Hall kv) by (by left). f_equal.
    apply IH. intros kv' Hin. apply Hall. by right.
Qed.

Lemma batch_nonempty s due : timerHasWork s -> soonTimer s = Some due -> fst (onTimer s) ≠ [].
Proof.
  intros Hwork Hdue Hnil. apply (Hwork due Hdue).
  apply map_empty. intros k. destruct (soon s !! k) as [th|] eqn:Hk; [|reflexivity].
  assert (Hin : In th (fst (onTimer s))) by (apply in_batch; eauto).
  rewrite Hnil in Hin. destruct Hin.
Qed.

(** A thread that is in the buffer while the timer runs is in the flush of
    that timer, in the state of its last notification. *)
Lemma flush_of_buffered rest s due i :
  soonTimer s = Some due ->
  filedById s ->
  is_Some (soon s !! i) ->
  ∃ batch th,
    In (due, batch) (eventLoop rest s) ∧ In th batch ∧ thread_id th = i.
Proof.
  revert s. induction rest as [|[t thread] rest IH]; intros s Hdue Hfiled [x Hx].
  - simpl. rewrite Hdue. exists (fst (onTimer s)), x.
    split; [by left|]. split; [apply in_batch; eauto|by apply Hfiled].
  - simpl. rewrite Hdue. destruct (due <=? t).
    + exists (fst (onTimer s)), x.
      split; [by left|]. split; [apply in_batch; eauto|by apply Hfiled].
    + apply IH.
      * simpl. by rewrite Hdue.
      * by apply filedById_notify.
      * simpl. destruct (decide (thread_id thread = i)) as [<-|Hne].
        -- rewrite lookup_insert_eq. by eexists.
        -- rewrite lookup_insert_ne by done. by eexists.
Qed.

Lemma eventLoop_latency events s :
  chronological events ->
  filedById s ->
  (∀ due, soonTimer s = Some due -> Forall (fun e => due <= e.1 + DELAY) events) ->
  ∀ t thread,
    In (t, thread) events ->
    ∃ due batch th,
      In (due, batch) (eventLoop events s)
      ∧ t < due ∧ due <= t + DELAY
      ∧ In th batch ∧ thread_id th = thread_id thread.
Proof.
  revert s. induction events as [|[t0 th0] rest IH]; intros s Hchron Hfiled Htimer t thread;
    [intros []|].
  destruct Hchron as [Hafter Hchron].
  set (s1 := match soonTimer s with
             | Some due => if due <=? t0 then syncThreadToWebSoon t0 th0 (snd (onTimer s))
                           else syncThreadToWebSoon t0 th0 s
             | None => syncThreadToWebSoon t0 th0 s
             end).
  assert (Hsub : ∀ x, In x (eventLoop rest s1) -> In x (eventLoop ((t0, th0) :: rest) s)).
  { intros x Hx. subst s1. simpl. destruct (soonTimer s) as [due|]; [|exact Hx].
    destruct (due <=? t0); [by right|exact Hx]. }
  assert (Hs1 : filedById s1
                ∧ is_Some (soon s1 !! thread_id th0)
                ∧ ∃ d1, soonTimer s1 = Some d1 ∧ t0 < d1 ∧ d1 <= t0 + DELAY
                        ∧ Forall (fun e => d1 <= e.1 + DELAY) rest).
  { assert (Hfresh : Forall (fun e : Z * Thread => t0 + DELAY <= e.1 + DELAY) rest).
    { eapply Forall_impl; [exact Hafter|]. simpl. intros e He. lia. }
    subst s1. destruct (soonTimer s) as [due|] eqn:Hdue.
    - destruct (Z.leb_spec due t0) as [Hle|Hgt].
      + split; [apply filedById_notify, filedById_idle|].
        split; [simpl; rewrite lookup_insert_eq; by eexists|].
        exists (t0 + DELAY). simpl. unfold DELAY in *. repeat split; try lia. exact Hfresh.
      + split; [by apply filedById_notify|].
        split; [simpl; rewrite lookup_insert_eq; by eexists|].
        specialize (Htimer due eq_refl). apply Forall_cons in Htimer as [Hhead Htail].
        simpl in Hhead. exists due. simpl. rewrite Hdue. repeat split; try lia. exact Htail.
    - split; [by apply filedById_notify|].
      split; [simpl; rewrite lookup_insert_eq; by eexists|].
      exists (t0 + DELAY). simpl. rewrite Hdue. unfold DELAY in *.
      repeat split; try lia. exact Hfresh. }
  destruct Hs1 as (Hfiled1 & Hbuffered & d1 & Hd1 & Hlo & Hhi & Hrest).
  intros [[= <- <-]|Hin].
  - destruct (flush_of_buffered rest s1 d1 (thread_id th0) Hd1 Hfiled1 Hbuffered)
      as (batch & th & Hflush & Hth & Hid).
    exists d1, batch, th. split; [by apply Hsub|done].
  - destruct (IH s1 Hchron Hfiled1) with (t := t) (thread := thread)
      as (due & batch & th & Hflush & Hbounds); [|exact Hin|].
    + intros due Hdue. rewrite Hd1 in Hdue. by injection Hdue as <-.
    + exists due, batch, th. split; [by apply Hsub|exact Hbounds].
Qed.

Lemma eventLoop_batches events s :
  filedById s ->
  timerHasWork s ->
  ∀ due batch,
    In (due, batch) (eventLoop events s) ->
    batch ≠ []
    ∧ NoDup (map thread_id batch)
    ∧ ∀ th, In th batch -> (∃ k, soon s !! k = Some th) ∨ (∃ t, In (t, th) events).
Proof.
  revert s. induction events as [|[t0 th0] rest IH]; intros s Hfiled Hwork due batch.
  - simpl. destruct (soonTimer s) as [d|] eqn:Hd; [|intros []].
    intros [[= <- <-]|[]].
    split; [by apply (batch_nonempty s d)|]. split; [by apply batch_ids_NoDup|].
    intros th Hth. left. by apply in_batch.
  - assert (Hhere : ∀ d, soonTimer s = Some d ->
              fst (onTimer s) ≠ []
              ∧ NoDup (map thread_id (fst (onTimer s)))
              ∧ ∀ th, In th (fst (onTimer s)) ->
                  (∃ k, soon s !! k = Some th) ∨ (∃ t, In (t, th) ((t0, th0) :: rest))).
    { intros d Hd. split; [by apply (batch_nonempty s d)|].
      split; [by apply batch_ids_NoDup|]. intros th Hth. left. by apply in_batch. }
    assert (Hlater : ∀ s1,
              filedById s1 ->
              (∀ k th, soon (syncThreadToWebSoon t0 th0 s1) !! k = Some th ->
                 th = th0 ∨ soon s !! k = Some th) ->
              In (due, batch) (eventLoop rest (syncThreadToWebSoon t0 th0 s1)) ->
              batch ≠ []
              ∧ NoDup (map thread_id batch)
              ∧ ∀ th, In th batch ->
                  (∃ k, soon s !! k = Some th) ∨ (∃ t, In (t, th) ((t0, th0) :: rest))).
    { intros s1 Hfiled1 Hfrom Hin.
      destruct (IH (syncThreadToWebSoon t0 th0 s1)
                  (filedById_notify _ _ _ Hfiled1) (timerHasWork_notify _ _ _)
                  due batch Hin) as (Hne & Hnodup & Hmem).
      split; [exact Hne|]. split; [exact Hnodup|].
      intros th Hth. destruct (Hmem th Hth) as [[k Hk]|[t Ht]].
      - destruct (Hfrom k th Hk) as [->|Hold]; [right; exists t0; by left|left; eauto].
      - right. exists t. by right. }
    assert (Hinsert : ∀ k th, soon (syncThreadToWebSoon t0 th0 s) !! k = Some th ->
              th = th0 ∨ soon s !! k = Some th).
    { intros k th. simpl. destruct (decide (thread_id th0 = k)) as [<-|Hne].
      - rewrite lookup_insert_eq. intros [= <-]. by left.
      - rewrite lookup_insert_ne by done. by right. }
    simpl. destruct (soonTimer s) as [d|] eqn:Hd.
    + destruct (d <=? t0).
      * intros [[= <- <-]|Hin]; [by apply (Hhere d)|].
        apply (Hlater idle); [apply filedById_idle| |exact Hin].
        intros k th. simpl. destruct (decide (thread_id th0 = k)) as [<-|Hne].
        -- rewrite lookup_insert_eq. intros [= <-]. by left.
        -- rewrite lookup_insert_ne, lookup_empty by done. discriminate.
      * by apply (Hlater s).
    + by apply (Hlater s).
Qed.

End SchedulerMore.

(** X19. A change record that is not a persist of threads leaves the
    scheduler as it is. A persist of threads schedules its shared threads, in
    order, and no other: an entity none of whose threads in the record is
    shared keeps what the buffer held for it, and a record without a shared
    thread neither changes the buffer nor starts the timer. *)
Theorem database_change_schedules_shared (t : Z) (change : DatabaseChangeRecord)
    (s : Scheduler) :
  (change_type change ≠ "persist" ∨ objectClass change ≠ "Thread" ->
   _onDatabaseChange t change s = s)
  ∧ (change_type change = "persist" -> objectClass change = "Thread" ->
     _onDatabaseChange t change s
     = notifyAll (map (fun th => (t, th)) (List.filter isShared (objects change))) s
     ∧ (∀ i : string,
          (∀ th, In th (objects change) -> thread_id th = i -> isShared th = false) ->
          soon (_onDatabaseChange t change s) !! i = soon s !! i)
     ∧ ((∀ th, In th (objects change) -> isShared th = false) ->
        _onDatabaseChange t change s = s)).
Proof.
  unfold _onDatabaseChange. split.
  - intros [Htype|Hclass].
    + apply String.eqb_neq in Htype. by rewrite Htype.
    + apply String.eqb_neq in Hclass. rewrite Hclass. by rewrite orb_true_r.
  - intros Htype Hclass.
    apply String.eqb_eq in Htype, Hclass. rewrite Htype, Hclass. simpl.
    rewrite onDatabaseChange_fold. split; [reflexivity|]. split.
    + intros i Hunshared. rewrite soon_notifyAll, lastNotified_none; [reflexivity|].
      intros e [th [<- Hth]]%in_map_iff Hid. simpl in Hid.
      apply filter_In in Hth as [Hth Hshared].
      rewrite (Hunshared th Hth Hid) in Hshared. discriminate.
    + intros Hnone.
      replace (List.filter isShared (objects change)) with (@nil Thread); [reflexivity|].
      symmetry. apply filter_none. exact Hnone.
Qed.

Lemma database_change_schedules_shared_witness :
  _onDatabaseChange 0
    {| change_type := "persist"; objectClass := "Thread";
       objects := [sampleThread; sharedThread] |} idle
  = syncThreadToWebSoon 0 sharedThread idle
  ∧ _onDatabaseChange 0
      {| change_type := "unpersist"; objectClass := "Thread"; objects := [sharedThread] |}
      idle
    = idle.
Proof.
  destruct (database_change_schedules_shared 0
              {| change_type := "persist"; objectClass := "Thread";
                 objects := [sampleThread; sharedThread] |} idle) as [_ Hpersist].
  destruct Hpersist as (-> & _); [reflexivity|reflexivity|].
  split; [reflexivity|].
  apply (proj1 (database_change_schedules_shared 0
                  {| change_type := "unpersist"; objectClass := "Thread";
                     objects := [sharedThread] |} idle)).
  left. discriminate.
Defined.

(** X20. No notification is lost, and none waits longer than the delay: when
    notifications reach a scheduler at rest in the order of their times, each
    of them is followed by a flush, later than the notification and at most
    5000 ms after it, whose batch holds a thread of the notified entity. *)
Theorem every_notification_is_flushed (events : list (Z * Thread)) (t : Z) (thread : Thread) :
  chronological events ->
  In (t, thread) events ->
  ∃ (due : Z) (batch : list Thread) (th : Thread),
    In (due, batch) (eventLoop events idle)
    ∧ t < due ∧ due <= t + DELAY
    ∧ In th batch ∧ thread_id th = thread_id thread.
Proof.
  intros Hchron Hin.
  apply (eventLoop_latency events idle Hchron filedById_idle); [|exact Hin].
  intros due Hdue. discriminate Hdue.
Qed.

Lemma every_notification_is_flushed_witness :
  ∃ (due : Z) (batch : list Thread) (th : Thread),
    In (due, batch)
       (eventLoop [(0, sampleThread); (4000, sharedThread); (7000, sampleThread)] idle)
    ∧ 4000 < due ∧ due <= 4000 + DELAY
    ∧ In th batch ∧ thread_id th = thread_id sharedThread.
Proof.
  apply (every_notification_is_flushed
           [(0, sampleThread); (4000, sharedThread); (7000, sampleThread)] 4000 sharedThread).
  - simpl. repeat split; repeat constructor; simpl; lia.
  - right. by left.
Defined.

(** X21. From a scheduler at rest, no flush is empty, no flush publishes an
    entity twice, and every thread a flush publishes is a thread the
    scheduler was notified of. *)
Theorem flushes_are_well_formed (events : list (Z * Thread)) (due : Z) (batch : list Thread) :
  In (due, batch) (eventLoop events idle) ->
  batch ≠ []
  ∧ NoDup (map thread_id batch)
  ∧ ∀ th : Thread, In th batch -> ∃ t : Z, In (t, th) events.
Proof.
  intros Hin.
  destruct (eventLoop_batches events idle filedById_idle) with (due := due) (batch := batch)
    as (Hne & Hnodup & Hmem); [intros d Hd; discriminate Hd|exact Hin|].
  split; [exact Hne|]. split; [exact Hnodup|].
  intros th Hth. destruct (Hmem th Hth) as [[k Hk]|Hnotified]; [|exact Hnotified].
  simpl in Hk. by rewrite lookup_empty in Hk.
Qed.

Lemma flushes_are_well_formed_witness :
  NoDup (map thread_id [sharedThread])
  ∧ ∃ t : Z, In (t, sharedThread) [(0, sampleThread); (4000, sharedThread); (7000, sampleThread)].
Proof.
  destruct (flushes_are_well_formed
              [(0, sampleThread); (4000, sharedThread); (7000, sampleThread)] 5000
              [sharedThread]) as (_ & Hnodup & Hnotified).
  - vm_compute. by left.
  - split; [exact Hnodup|]. apply Hnotified. by left.
Defined.

(** * What [parseInt] overlooks *)

(** X22. A link's [date] field is read for the integer it starts with: what
    follows the digits (anything that does not start with a digit) and a
    blank in front of them (any white space [parseInt] skips, U+00A0 and the
    other Unicode blanks included) change neither the locator nor what the
    link opens. So [date=1030.5] and [date= 1030] open what [date=1030]
    opens. *)
Theorem parseInt_reads_prefix (store : list Thread) (s : string) (ql : option string)
    (z : Z) (c : ascii) (rest blank : string) :
  isDigit c = false ->
  In blank strWhiteSpace ->
  _parseOpenThreadUrl
    {| q_subject := s; q_date := Some (pretty z +:+ String c rest); q_lastDate := ql |}
  = _parseOpenThreadUrl {| q_subject := s; q_date := Some (pretty z); q_lastDate := ql |}
  ∧ _parseOpenThreadUrl
      {| q_subject := s; q_date := Some (blank +:+ pretty z); q_lastDate := ql |}
    = _parseOpenThreadUrl {| q_subject := s; q_date := Some (pretty z); q_lastDate := ql |}
  ∧ _onOpenThreadFromWeb store
      {| q_subject := s; q_date := Some (blank +:+ pretty z +:+ String c rest);
         q_lastDate := ql |}
    = _onOpenThreadFromWeb store
        {| q_subject := s; q_date := Some (pretty z); q_lastDate := ql |}.
Proof.
  intros Hc Hblank.
  assert (Hz : pretty z ≠ "") by apply pretty_Z_nonempty.
  assert (Htail : parseInt (pretty z +:+ String c rest) = parseInt (pretty z)).
  { rewrite parseInt_pretty. apply parseInt_pretty_then. by intros c' s' [= <- <-]. }
  assert (H1 : _parseOpenThreadUrl
            {| q_subject := s; q_date := Some (pretty z +:+ String c rest);
               q_lastDate := ql |}
          = _parseOpenThreadUrl
              {| q_subject := s; q_date := Some (pretty z); q_lastDate := ql |}).
  { rewrite !parse_date_field by (done || by apply append_nonempty_l). by rewrite Htail. }
  assert (H2 : ∀ text, text ≠ "" ->
            _parseOpenThreadUrl
              {| q_subject := s; q_date := Some (blank +:+ text); q_lastDate := ql |}
            = _parseOpenThreadUrl
                {| q_subject := s; q_date := Some text; q_lastDate := ql |}).
  { intros text Htext.
    rewrite !parse_date_field by (done || by apply append_nonempty_r).
    by rewrite parseInt_blank. }
  split; [exact H1|]. split; [by apply H2|].
  unfold _onOpenThreadFromWeb.
  rewrite H2 by (by apply append_nonempty_l). by rewrite H1.
Qed.

Lemma parseInt_reads_prefix_witness :
  _onOpenThreadFromWeb [sampleThread]
    {| q_subject := "Hi"; q_date := Some (utf8 [194; 160]%nat +:+ "1030.5");
       q_lastDate := None |}
  = PopoutThread sampleThread.
Proof.
  etrans;
    [exact (proj2 (proj2 (parseInt_reads_prefix [sampleThread] "Hi" None 1030 "." "5"
                            (utf8 [194; 160]%nat) eq_refl
                            ltac:(unfold strWhiteSpace; simpl; tauto))))|].
  reflexivity.
Defined.
